(** * numprint: pretty printing sequences of digits

    A shallow embedding of [print.go] of the package [numprint] and the
    properties its specification states about it.

    Conventions of the embedding.
    - Go's [int] is a [Z] in the range of a 64 bit signed integer; the one
      arithmetic operation of [print.go], [index + 1] in [endOf], wraps
      around as Go's does ([GoInt.add]).
    - A [rune] is the [Z] of its code point.
    - An [iter.Seq2[int, int]] is read by position in the order of its
      yields: [it n] is the [n]-th pair the iterator yields, [None] once it
      has returned.  Such a sequence may be unbounded.
    - A [for ... range] loop over such an iterator is [rangeSeq2]; it takes
      fuel because the iterator may never end, and it logs every pair it
      requests from the iterator.
    - A function of [print.go] returns a [Run]: the log of the calls it made
      on its collaborators (the digit source and the printer), and its
      result, [None] when the fuel ran out first.
    - A pointer that is written through ([*printerSettings], [*printer], the
      [io.Writer]) is passed as a value and returned updated. *)

From Stdlib Require Import ZArith List Bool Lia String Ascii DecimalString.
Import ListNotations.
Open Scope Z_scope.

(* ------------------------------------------------------------------ *)
(** ** Go's [int] and [rune] *)

Module GoInt.

Definition min_int : Z := - 2 ^ 63.
Definition max_int : Z := 2 ^ 63 - 1.

Definition in_range (z : Z) : Prop := min_int <= z <= max_int.

(** The value a 64 bit two's complement register holds for [z]. *)
Definition wrap (z : Z) : Z := (z + 2 ^ 63) mod 2 ^ 64 - 2 ^ 63.

(** Go's [+] on [int]. *)
Definition add (a b : Z) : Z := wrap (a + b).

End GoInt.

Definition rune : Type := Z.

Definition rune_of_ascii (a : ascii) : rune := Z.of_N (N_of_ascii a).

(** Go's [error]: the message it carries. *)
Definition error : Type := string.

(* ------------------------------------------------------------------ *)
(** ** Iterators, the log of calls, and [for ... range] *)

(** [iter.Seq2[int, int]]: the pairs in the order they are yielded. *)
Definition Seq2 : Type := nat -> option (Z * Z).

(** The finite iterator that yields the pairs of a list. *)
Definition Seq2_of_list (l : list (Z * Z)) : Seq2 := fun n => nth_error l n.

(** A call that [print.go] makes on a collaborator.
    - [Checked can]: [printer.CanConsume()] was called and returned [can];
    - [Pulled i]: the loop asked the iterator it ranges over for its [i]-th
      pair (counting from 0);
    - [Consumed can posit digit]: [printer.Consume(posit, digit)] was called,
      on a printer for which [CanConsume()] was [can] at that moment;
    - [Queried start end]: [s.AllInRange(start, end)] was called. *)
Inductive Event : Type :=
| Checked (can : bool)
| Pulled (i : nat)
| Consumed (can : bool) (posit digit : Z)
| Queried (start end_ : Z).

Definition Run (A : Type) : Type := (list Event * option A)%type.

Definition ret {A : Type} (a : A) : Run A := ([], Some a).

Definition bind {A B : Type} (m : Run A) (k : A -> Run B) : Run B :=
  match m with
  | (t, None) => (t, None)
  | (t, Some a) => let '(t', o) := k a in (t ++ t', o)
  end.

Definition tell (e : Event) : Run unit := ([e], Some tt).

Definition trace {A : Type} (m : Run A) : list Event := fst m.
Definition result {A : Type} (m : Run A) : option A := snd m.

Declare Scope run_scope.
Delimit Scope run_scope with run.
Notation "x <- m ;; k" := (bind m (fun x => k))
  (at level 61, m at next level, right associativity) : run_scope.
Notation "m ;;; k" := (bind m (fun _ => k))
  (at level 61, right associativity) : run_scope.
Open Scope run_scope.

(** How the body of a loop ends: it falls through to the next iteration
    with the loop's state, or it executes [return]. *)
Inductive Flow (St R : Type) : Type :=
| Continue (st : St)
| Return (r : R).
Arguments Continue {St R} st.
Arguments Return {St R} r.

(** [for k, v := range it { body }], from the [i]-th pair on.  The loop ends
    with [Continue st] when the iterator has no pair left, and with
    [Return r] when the body returned; in both cases no further pair is
    requested. *)
Fixpoint rangeSeq2 {St R : Type} (fuel : nat) (it : Seq2) (i : nat)
    (body : Z -> Z -> St -> Run (Flow St R)) (st : St) : Run (Flow St R) :=
  match fuel with
  | O => ([], None)
  | S fuel' =>
      tell (Pulled i) ;;;
      match it i with
      | None => ret (Continue st)
      | Some (k, v) =>
          f <- body k v st ;;
          match f with
          | Continue st' => rangeSeq2 fuel' it (S i) body st'
          | Return r => ret (Return r)
          end
      end
  end.

(* ------------------------------------------------------------------ *)
(** ** The digit sources *)

(** [Printable]: [AllInRange(start, end)]. *)
Record Printable : Type := { AllInRange : Z -> Z -> Seq2 }.

(** [Writable]: [All()] and [Backward()]. *)
Record Writable : Type := { All : Seq2; Backward : Seq2 }.

(* ------------------------------------------------------------------ *)
(** ** Settings and options *)

Record printerSettings : Type := {
  digitsPerRow : Z;
  digitsPerColumn : Z;
  showCount : bool;
  missingDigit : rune;
  trailingLineFeed : bool;
  leadingDecimal : bool;
  bufferSize : Z
}.

(** [type optionFunc func(p *printerSettings)]: the only implementation of
    the interface [Option] in the package. *)
Inductive Option : Type :=
| optionFunc (f : printerSettings -> printerSettings).

Definition mutate (o : Option) (p : printerSettings) : printerSettings :=
  match o with optionFunc f => f p end.

Definition DigitsPerRow (count : Z) : Option :=
  optionFunc (fun p =>
    {| digitsPerRow := count;
       digitsPerColumn := digitsPerColumn p;
       showCount := showCount p;
       missingDigit := missingDigit p;
       trailingLineFeed := trailingLineFeed p;
       leadingDecimal := leadingDecimal p;
       bufferSize := bufferSize p |}).

Definition DigitsPerColumn (count : Z) : Option :=
  optionFunc (fun p =>
    {| digitsPerRow := digitsPerRow p;
       digitsPerColumn := count;
       showCount := showCount p;
       missingDigit := missingDigit p;
       trailingLineFeed := trailingLineFeed p;
       leadingDecimal := leadingDecimal p;
       bufferSize := bufferSize p |}).

Definition ShowCount (on : bool) : Option :=
  optionFunc (fun p =>
    {| digitsPerRow := digitsPerRow p;
       digitsPerColumn := digitsPerColumn p;
       showCount := on;
       missingDigit := missingDigit p;
       trailingLineFeed := trailingLineFeed p;
       leadingDecimal := leadingDecimal p;
       bufferSize := bufferSize p |}).

Definition MissingDigit (missing : rune) : Option :=
  optionFunc (fun p =>
    {| digitsPerRow := digitsPerRow p;
       digitsPerColumn := digitsPerColumn p;
       showCount := showCount p;
       missingDigit := missing;
       trailingLineFeed := trailingLineFeed p;
       leadingDecimal := leadingDecimal p;
       bufferSize := bufferSize p |}).

Definition TrailingLF (on : bool) : Option :=
  optionFunc (fun p =>
    {| digitsPerRow := digitsPerRow p;
       digitsPerColumn := digitsPerColumn p;
       showCount := showCount p;
       missingDigit := missingDigit p;
       trailingLineFeed := on;
       leadingDecimal := leadingDecimal p;
       bufferSize := bufferSize p |}).

Definition LeadingDecimal (on : bool) : Option :=
  optionFunc (fun p =>
    {| digitsPerRow := digitsPerRow p;
       digitsPerColumn := digitsPerColumn p;
       showCount := showCount p;
       missingDigit := missingDigit p;
       trailingLineFeed := trailingLineFeed p;
       leadingDecimal := on;
       bufferSize := bufferSize p |}).

Definition bufferSize_option (size : Z) : Option :=
  optionFunc (fun p =>
    {| digitsPerRow := digitsPerRow p;
       digitsPerColumn := digitsPerColumn p;
       showCount := showCount p;
       missingDigit := missingDigit p;
       trailingLineFeed := trailingLineFeed p;
       leadingDecimal := leadingDecimal p;
       bufferSize := size |}).

(** [mutateSettings]: every option mutates the record in turn. *)
Fixpoint mutateSettings (options : list Option) (settings : printerSettings)
    : printerSettings :=
  match options with
  | [] => settings
  | option :: rest => mutateSettings rest (mutate option settings)
  end.

(* ------------------------------------------------------------------ *)
(** ** The positions to print *)

(** A range of positions, [Start] inclusive and [End] exclusive: the
    values that [p.All()] yields ([pr.Start], [pr.End]). *)
Record PositionRange : Type := { Start : Z; End : Z }.

(** Modelled from the spec: the type [Positions], which [print.go] uses and
    does not declare.  The spec's Position Range Set is an ordered, finite
    sequence of ranges; [All] yields them in order and [End] is the
    maximum end over all ranges, 0 if there is none. *)
Record Positions : Type := { ranges : list PositionRange }.

Definition Positions_All (p : Positions) : list PositionRange := ranges p.

Definition Positions_End (p : Positions) : Z :=
  fold_right (fun r m => Z.max (End r) m) 0 (ranges p).

(* ------------------------------------------------------------------ *)
(** ** The destination and the printer, as [print.go] sees them *)

(** [io.Writer]: [Write] reports the number of bytes it accepted and an
    error, and leaves the writer updated. *)
Class IoWriter (W : Type) : Type := {
  Write : string -> W -> W * (Z * option error)
}.

(** The type [printer] is used by [print.go] and declared elsewhere in the
    package; these are the operations [print.go] calls on it.  [writer] is
    the destination as the printer leaves it: the caller of [Fprint] sees
    it through the [io.Writer] it passed. *)
Class PrinterOps (W : Type) : Type := {
  printer : Type;
  newPrinter : W -> Z -> printerSettings -> printer;
  CanConsume : printer -> bool;
  Consume : Z -> Z -> printer -> printer;
  Finish : printer -> printer;
  BytesWritten : printer -> Z;
  Err : printer -> option error;
  writer : printer -> W
}.

(* ------------------------------------------------------------------ *)
(** ** [print.go]: driving the printer *)

Section Driving.

Context {W : Type} {ops : PrinterOps W}.

(** The body of the [for] loop of [fromIterator]. *)
Definition fromIterator_body (posit digit : Z) (pr : printer)
    : Run (Flow printer printer) :=
  tell (Consumed (CanConsume pr) posit digit) ;;;
  let pr := Consume posit digit pr in
  tell (Checked (CanConsume pr)) ;;;
  if negb (CanConsume pr) then ret (Return pr) else ret (Continue pr).

(** The printer a loop of [fromIterator] leaves, however the loop ended. *)
Definition leaves (f : Flow printer printer) : printer :=
  match f with Continue pr => pr | Return pr => pr end.

Definition fromIterator (fuel : nat) (it : Seq2) (pr : printer)
    : Run printer :=
  tell (Checked (CanConsume pr)) ;;;
  if negb (CanConsume pr) then ret pr
  else
    f <- rangeSeq2 fuel it 0 fromIterator_body pr ;;
    ret (leaves f).

(** [for pr := range p.All() { fromIterator(s.AllInRange(...), printer) }]:
    the argument [s.AllInRange(pr.Start, pr.End)] is evaluated, then
    [fromIterator] is entered. *)
Fixpoint fromRanges (fuel : nat) (s : Printable) (rs : list PositionRange)
    (pr : printer) : Run printer :=
  match rs with
  | [] => ret pr
  | r :: rs' =>
      tell (Queried (Start r) (End r)) ;;;
      pr' <- fromIterator fuel (AllInRange s (Start r) (End r)) pr ;;
      fromRanges fuel s rs' pr'
  end.

Definition fromSequenceWithPositions (fuel : nat) (s : Printable)
    (p : Positions) (pr : printer) : Run printer :=
  fromRanges fuel s (Positions_All p) pr.

(** [endOf]: the body returns in its first iteration. *)
Definition endOf (fuel : nat) (s : Writable) : Run Z :=
  f <- rangeSeq2 fuel (Backward s) 0
         (fun index _ (st : unit) => ret (Return (GoInt.add index 1))) tt ;;
  match f with
  | Return r => ret r
  | Continue _ => ret 0
  end.

(** The settings [Fprint] and [Fwrite] start from; a field the composite
    literal leaves out has Go's zero value. *)
Definition Fprint_settings : printerSettings :=
  {| digitsPerRow := 50;
     digitsPerColumn := 5;
     showCount := true;
     missingDigit := rune_of_ascii ".";
     trailingLineFeed := false;
     leadingDecimal := true;
     bufferSize := 0 |}.

Definition Fwrite_settings : printerSettings :=
  {| digitsPerRow := 50;
     digitsPerColumn := 5;
     showCount := true;
     missingDigit := rune_of_ascii ".";
     trailingLineFeed := true;
     leadingDecimal := false;
     bufferSize := 0 |}.

(** [Fprint] up to its [return]: the printer after [printer.Finish()]. *)
Definition Fprint_printer (fuel : nat) (w : W) (s : Printable)
    (p : Positions) (options : list Option) : Run printer :=
  let settings := Fprint_settings in
  let pr := newPrinter w (Positions_End p) (mutateSettings options settings) in
  pr <- fromSequenceWithPositions fuel s p pr ;;
  ret (Finish pr).

(** [Fprint]: the number of bytes written and the error, with the
    destination as the call leaves it. *)
Definition Fprint (fuel : nat) (w : W) (s : Printable) (p : Positions)
    (options : list Option) : Run (W * (Z * option error)) :=
  pr <- Fprint_printer fuel w s p options ;;
  ret (writer pr, (BytesWritten pr, Err pr)).

(** [Fwrite] up to its [return]. *)
Definition Fwrite_printer (fuel : nat) (w : W) (s : Writable)
    (options : list Option) : Run printer :=
  let settings := Fwrite_settings in
  extent <- endOf fuel s ;;
  let pr := newPrinter w extent (mutateSettings options settings) in
  pr <- fromIterator fuel (All s) pr ;;
  ret (Finish pr).

Definition Fwrite (fuel : nat) (w : W) (s : Writable)
    (options : list Option) : Run (W * (Z * option error)) :=
  pr <- Fwrite_printer fuel w s options ;;
  ret (writer pr, (BytesWritten pr, Err pr)).

(** [Print] and [Write]: [Fprint] and [Fwrite] on [os.Stdout], the
    process's standard output as the call finds it. *)
Definition Print (fuel : nat) (stdout : W) (s : Printable) (p : Positions)
    (options : list Option) : Run (W * (Z * option error)) :=
  Fprint fuel stdout s p options.

Definition Write_stdout (fuel : nat) (stdout : W) (s : Writable)
    (options : list Option) : Run (W * (Z * option error)) :=
  Fwrite fuel stdout s options.

End Driving.

(* ------------------------------------------------------------------ *)
(** ** [strings.Builder] and the entry points that return a string *)

(** [strings.Builder]: the bytes written so far, and the arguments of the
    calls of [Grow], the method that presizes the buffer. *)
Record Builder : Type := { contents : string; grown : list Z }.

(** [var builder strings.Builder]: the zero value. *)
Definition zero_Builder : Builder := {| contents := EmptyString; grown := [] |}.

Definition Builder_Write (s : string) (b : Builder)
    : Builder * (Z * option error) :=
  ({| contents := contents b ++ s; grown := grown b |},
   (Z.of_nat (String.length s), None)).

Definition Builder_String (b : Builder) : string := contents b.

#[export] Instance Builder_IoWriter : IoWriter Builder :=
  {| Write := Builder_Write |}.

Section Strings.

Context {ops : PrinterOps Builder}.

(** [Sprint] up to its [return]: the builder after [Fprint]. *)
Definition Sprint_builder (fuel : nat) (s : Printable) (p : Positions)
    (options : list Option) : Run Builder :=
  let builder := zero_Builder in
  r <- Fprint fuel builder s p options ;;
  ret (fst r).

Definition Sprint (fuel : nat) (s : Printable) (p : Positions)
    (options : list Option) : Run string :=
  builder <- Sprint_builder fuel s p options ;;
  ret (Builder_String builder).

Definition Swrite_builder (fuel : nat) (s : Writable)
    (options : list Option) : Run Builder :=
  let builder := zero_Builder in
  r <- Fwrite fuel builder s options ;;
  ret (fst r).

Definition Swrite (fuel : nat) (s : Writable) (options : list Option)
    : Run string :=
  builder <- Swrite_builder fuel s options ;;
  ret (Builder_String builder).

End Strings.

(* ------------------------------------------------------------------ *)
(** ** The layout engine *)

(** What the engine writes to the destination, one [Write] per token.
    - [TPrefix]: the leading ["0."];
    - [TMargin pos]: the count margin of the row that starts at [pos];
    - [TDigit pos digit]: the digit slot of position [pos], a real digit;
    - [TMissing pos glyph]: the digit slot of position [pos], rendered
      with the missing-digit glyph;
    - [TColumnGap]: the space between two columns;
    - [TRowBreak]: the line break that ends a row;
    - [TTrailingLF]: the trailing line break of [Finish]. *)
Inductive Token : Type :=
| TPrefix
| TMargin (pos : Z)
| TDigit (pos digit : Z)
| TMissing (pos : Z) (glyph : rune)
| TColumnGap
| TRowBreak
| TTrailingLF.




(** The positions [first], [first + 1], ..., [first + n - 1]. *)
Fixpoint positions_from (first : Z) (n : nat) : list Z :=
  match n with
  | O => []
  | S n' => first :: positions_from (first + 1) n'
  end.


Definition byte_string (b : Z) : string :=
  String (ascii_of_N (Z.to_N b)) EmptyString.

(** The bytes of a rune in UTF-8; a value that is no Unicode scalar is
    written as U+FFFD, as Go does. *)
Definition utf8 (r : rune) : string :=
  if (r <? 0) || (1114111 <? r) || ((55296 <=? r) && (r <=? 57343)) then
    byte_string 239 ++ byte_string 191 ++ byte_string 189
  else if r <? 128 then byte_string r
  else if r <? 2048 then
    byte_string (192 + r / 64) ++ byte_string (128 + r mod 64)
  else if r <? 65536 then
    byte_string (224 + r / 4096) ++ byte_string (128 + (r / 64) mod 64)
    ++ byte_string (128 + r mod 64)
  else
    byte_string (240 + r / 262144) ++ byte_string (128 + (r / 4096) mod 64)
    ++ byte_string (128 + (r / 64) mod 64) ++ byte_string (128 + r mod 64).

Section Engine.

Context {W : Type} {io : IoWriter W}.

(** The spec leaves the text of the count margin open (its padding width
    is "not fully determined"): [margin extent pos] is the margin of the
    row that starts at position [pos], separator included, in a rendering
    of [extent] positions. *)
Variable margin : Z -> Z -> string.

(** Modelled from the spec: the engine state (struct [printer], declared
    outside [print.go]): the destination, the extent, the settings, the
    cursor (next position expected), the bytes written so far and the
    first error.  [p_rendered] is a ghost field: the tokens the destination
    accepted, in order. *)
Record lprinter : Type := {
  p_writer : W;
  p_extent : Z;
  p_settings : printerSettings;
  p_cursor : Z;
  p_written : Z;
  p_err : option error;
  p_rendered : list Token
}.

Definition token_text (extent : Z) (tok : Token) : string :=
  match tok with
  | TPrefix => "0."
  | TMargin pos => margin extent pos
  | TDigit _ digit => utf8 (rune_of_ascii "0" + digit)
  | TMissing _ glyph => utf8 glyph
  | TColumnGap => " "
  | TRowBreak => byte_string 10
  | TTrailingLF => byte_string 10
  end.

(** Modelled from the spec: one emission step.  "Any write failure at any
    emission step immediately records the error, flips the engine to a
    non-consuming state [...] partial output already written is kept
    (bytes-written count reflects exactly what was physically written
    before the failure)"; "once a write fails, rendering stops
    permanently". *)
Definition emit (tok : Token) (pr : lprinter) : lprinter :=
  match p_err pr with
  | Some _ => pr
  | None =>
      let '(w, (n, e)) := Write (token_text (p_extent pr) tok) (p_writer pr) in
      {| p_writer := w;
         p_extent := p_extent pr;
         p_settings := p_settings pr;
         p_cursor := p_cursor pr;
         p_written := p_written pr + n;
         p_err := e;
         p_rendered :=
           match e with
           | None => p_rendered pr ++ [tok]
           | Some _ => p_rendered pr
           end |}
  end.

Definition emit_if (b : bool) (tok : Token) (pr : lprinter) : lprinter :=
  if b then emit tok pr else pr.

(** Step 2 of the spec's rendering algorithm: "this position is the first
    column of a new row (position is a multiple of digitsPerRow, or
    digitsPerRow <= 0 and this is the very first position)". *)
Definition starts_row (s : printerSettings) (pos : Z) : bool :=
  if 0 <? digitsPerRow s then pos mod digitsPerRow s =? 0 else pos =? 0.

(** Step 5: "digitsPerRow > 0 and this position completes a row
    (position+1 is a multiple of digitsPerRow)". *)
Definition completes_row (s : printerSettings) (pos : Z) : bool :=
  (0 <? digitsPerRow s) && ((pos + 1) mod digitsPerRow s =? 0).

(** Step 4: "digitsPerColumn > 0 and this position completes a column
    (position+1 is a multiple of digitsPerColumn, counting within the
    current row)". *)
Definition completes_column (s : printerSettings) (pos : Z) : bool :=
  let in_row := if 0 <? digitsPerRow s then pos mod digitsPerRow s else pos in
  (0 <? digitsPerColumn s) && ((in_row + 1) mod digitsPerColumn s =? 0).

Definition advance (pr : lprinter) : lprinter :=
  match p_err pr with
  | Some _ => pr
  | None =>
      {| p_writer := p_writer pr;
         p_extent := p_extent pr;
         p_settings := p_settings pr;
         p_cursor := p_cursor pr + 1;
         p_written := p_written pr;
         p_err := p_err pr;
         p_rendered := p_rendered pr |}
  end.

(** Modelled from the spec: the per-digit rendering algorithm, steps 1 to
    5, at the cursor; [slot] makes the digit slot of the position.  The
    row break of step 5 is left out after the last position of the extent
    ("the very final row, whose trailing break is governed by the
    trailingLineFeed setting applied once at Finish()").  The cursor
    advances when the step was not aborted by a write failure. *)
Definition render (slot : Z -> Token) (pr : lprinter) : lprinter :=
  let pos := p_cursor pr in
  let s := p_settings pr in
  let pr := emit_if (leadingDecimal s && (pos =? 0)) TPrefix pr in
  let pr := emit_if (showCount s && starts_row s pos) (TMargin pos) pr in
  let pr := emit (slot pos) pr in
  let pr := emit_if (completes_column s pos && negb (completes_row s pos))
              TColumnGap pr in
  let pr := emit_if (completes_row s pos && (pos + 1 <? p_extent pr))
              TRowBreak pr in
  advance pr.

(** [count] positions from the cursor on, each rendered with the
    missing-digit glyph. *)
Fixpoint placeholders (count : nat) (pr : lprinter) : lprinter :=
  match count with
  | O => pr
  | S count' =>
      placeholders count'
        (render (fun pos => TMissing pos (missingDigit (p_settings pr))) pr)
  end.

(** Modelled from the spec: construction "per invocation with a fixed
    extent and settings"; the cursor starts at position 0. *)
Definition l_newPrinter (w : W) (extent : Z) (settings : printerSettings)
    : lprinter :=
  {| p_writer := w;
     p_extent := extent;
     p_settings := settings;
     p_cursor := 0;
     p_written := 0;
     p_err := None;
     p_rendered := [] |}.

(** Modelled from the spec: "returns false once the first write error has
    occurred, or once the engine believes it has already produced its
    entire extent (cursor >= extent)". *)
Definition l_CanConsume (pr : lprinter) : bool :=
  match p_err pr with
  | Some _ => false
  | None => p_cursor pr <? p_extent pr
  end.

(** Modelled from the spec: "If position > cursor, the engine first
    synthesizes (position - cursor) missing-digit renderings for the
    skipped positions [...] advancing the cursor to position, then renders
    digit at position and advances the cursor by one."  The spec requires
    [CanConsume()] to be true and [position >= cursor].  Where the first
    fails this model writes nothing ("no further bytes are written");
    where the second fails it skips nothing and renders the digit at the
    cursor (the spec calls this a caller error with "undefined duplicate
    output, not a crash"). *)
Definition l_Consume (posit digit : Z) (pr : lprinter) : lprinter :=
  if negb (l_CanConsume pr) then pr
  else
    let pr := placeholders (Z.to_nat (posit - p_cursor pr)) pr in
    render (fun pos => TDigit pos digit) pr.

(** Modelled from the spec: "If the cursor is still below the extent,
    emits missing-digit placeholders for all remaining positions up to the
    extent [...] Then, if configured, appends one trailing line break." *)
Definition l_Finish (pr : lprinter) : lprinter :=
  let pr := placeholders (Z.to_nat (p_extent pr - p_cursor pr)) pr in
  emit_if (trailingLineFeed (p_settings pr)) TTrailingLF pr.

Definition l_BytesWritten (pr : lprinter) : Z := p_written pr.

Definition l_Err (pr : lprinter) : option error := p_err pr.

Definition layout_printer : PrinterOps W :=
  {| printer := lprinter;
     newPrinter := l_newPrinter;
     CanConsume := l_CanConsume;
     Consume := l_Consume;
     Finish := l_Finish;
     BytesWritten := l_BytesWritten;
     Err := l_Err;
     writer := p_writer |}.

End Engine.

(* ------------------------------------------------------------------ *)
(** ** Reading the engine *)

(** A destination whose [Write] never reports an error. *)
Definition never_fails (W : Type) {io : IoWriter W} : Prop :=
  forall (s : string) (w : W), snd (snd (Write s w)) = None.




(** The bytes of a sequence of writes. *)
Fixpoint text_of (chunks : list string) : string :=
  match chunks with
  | [] => EmptyString
  | chunk :: rest => chunk ++ text_of rest
  end.


(** The positions the engine has still to render, none after an error. *)
Definition remaining_positions {W : Type} (pr : @lprinter W) : nat :=
  match p_err pr with
  | Some _ => O
  | None => Z.to_nat (p_extent pr - p_cursor pr)
  end.


(** The extent [endOf] reads off the backward traversal. *)
Definition backward_extent (s : Writable) : Z :=
  match Backward s 0%nat with
  | Some (index, _) => GoInt.add index 1
  | None => 0
  end.

(** The contract of [Writable]: [Backward()] goes "from end to beginning",
    so no position of [All()] lies past its first pair. *)
Definition Writable_within (s : Writable) : Prop :=
  forall (i : nat) (posit digit : Z),
    All s i = Some (posit, digit) -> posit < backward_extent s.

(* ------------------------------------------------------------------ *)
(** ** Reading a log *)

(** A pair requested from a digit iterator, or handed to [Consume]. *)
Definition is_input (e : Event) : bool :=
  match e with
  | Pulled _ | Consumed _ _ _ => true
  | _ => false
  end.

Definition is_query (e : Event) : bool :=
  match e with
  | Queried _ _ => true
  | _ => false
  end.

(** [CanConsume()] returned false. *)
Definition is_stop (e : Event) : bool :=
  match e with
  | Checked false => true
  | _ => false
  end.

(** [Consume] was called on a printer that could consume. *)
Definition consumed_while_can (e : Event) : bool :=
  match e with
  | Consumed can _ _ => can
  | _ => true
  end.

(** What the log holds after the first time [CanConsume()] returned
    false; empty when it never did. *)
Fixpoint after_stop (t : list Event) : list Event :=
  match t with
  | [] => []
  | Checked false :: t' => t'
  | _ :: t' => after_stop t'
  end.

(** Every call of [Consume] is followed at once by a call of
    [CanConsume]. *)
Fixpoint rechecked (t : list Event) : bool :=
  match t with
  | [] => true
  | Consumed _ _ _ :: t' =>
      match t' with
      | Checked _ :: _ => rechecked t'
      | _ => false
      end
  | _ :: t' => rechecked t'
  end.

(** The shape of the log of the loop of [fromIterator]: a sequence of
    rounds [Pulled], [Consumed true], [Checked true], ended by the fuel,
    by the end of the iterator, or by a round whose check returned
    false. *)
Inductive rounds : list Event -> Prop :=
| rounds_fuel : rounds []
| rounds_end (i : nat) : rounds [Pulled i]
| rounds_stop (i : nat) (posit digit : Z) :
    rounds [Pulled i; Consumed true posit digit; Checked false]
| rounds_next (i : nat) (posit digit : Z) (t : list Event) :
    rounds t ->
    rounds (Pulled i :: Consumed true posit digit :: Checked true :: t).

(** The ranges [AllInRange] was called with, in order. *)
Fixpoint queries (t : list Event) : list PositionRange :=
  match t with
  | [] => []
  | Queried start end_ :: t' => {| Start := start; End := end_ |} :: queries t'
  | _ :: t' => queries t'
  end.

(** The log that is left when the printer cannot consume: every range is
    queried, and [fromIterator] returns at its first check. *)
Definition idle_log (rs : list PositionRange) : list Event :=
  flat_map (fun r => [Queried (Start r) (End r); Checked false]) rs.

(** The number of pairs requested from iterators. *)
Fixpoint pulls (t : list Event) : nat :=
  match t with
  | [] => O
  | Pulled _ :: t' => S (pulls t')
  | _ :: t' => pulls t'
  end.

(** Once [CanConsume()] has returned false, no range is queried. *)
Definition stops_querying (t : list Event) : Prop :=
  forallb (fun e => negb (is_query e)) (after_stop t) = true.

(* ------------------------------------------------------------------ *)
(** ** The options a caller can build *)

(** The option constructors of [print.go], each with its argument. *)
Inductive OptionCall : Type :=
| CallDigitsPerRow (count : Z)
| CallDigitsPerColumn (count : Z)
| CallShowCount (on : bool)
| CallMissingDigit (missing : rune)
| CallTrailingLF (on : bool)
| CallLeadingDecimal (on : bool)
| CallBufferSize (size : Z).

Definition build (c : OptionCall) : Option :=
  match c with
  | CallDigitsPerRow count => DigitsPerRow count
  | CallDigitsPerColumn count => DigitsPerColumn count
  | CallShowCount on => ShowCount on
  | CallMissingDigit missing => MissingDigit missing
  | CallTrailingLF on => TrailingLF on
  | CallLeadingDecimal on => LeadingDecimal on
  | CallBufferSize size => bufferSize_option size
  end.

(** The fields of [printerSettings], and the value of a field. *)
Inductive Field : Type :=
| FDigitsPerRow
| FDigitsPerColumn
| FShowCount
| FMissingDigit
| FTrailingLineFeed
| FLeadingDecimal
| FBufferSize.

Inductive Value : Type :=
| VInt (n : Z)
| VBool (b : bool)
| VRune (r : rune).

Definition get (f : Field) (p : printerSettings) : Value :=
  match f with
  | FDigitsPerRow => VInt (digitsPerRow p)
  | FDigitsPerColumn => VInt (digitsPerColumn p)
  | FShowCount => VBool (showCount p)
  | FMissingDigit => VRune (missingDigit p)
  | FTrailingLineFeed => VBool (trailingLineFeed p)
  | FLeadingDecimal => VBool (leadingDecimal p)
  | FBufferSize => VInt (bufferSize p)
  end.

Definition Field_eqb (f g : Field) : bool :=
  match f, g with
  | FDigitsPerRow, FDigitsPerRow
  | FDigitsPerColumn, FDigitsPerColumn
  | FShowCount, FShowCount
  | FMissingDigit, FMissingDigit
  | FTrailingLineFeed, FTrailingLineFeed
  | FLeadingDecimal, FLeadingDecimal
  | FBufferSize, FBufferSize => true
  | _, _ => false
  end.

(** The field an option assigns, and the value it assigns to it. *)
Definition target (c : OptionCall) : Field :=
  match c with
  | CallDigitsPerRow _ => FDigitsPerRow
  | CallDigitsPerColumn _ => FDigitsPerColumn
  | CallShowCount _ => FShowCount
  | CallMissingDigit _ => FMissingDigit
  | CallTrailingLF _ => FTrailingLineFeed
  | CallLeadingDecimal _ => FLeadingDecimal
  | CallBufferSize _ => FBufferSize
  end.

Definition assigned (c : OptionCall) : Value :=
  match c with
  | CallDigitsPerRow count => VInt count
  | CallDigitsPerColumn count => VInt count
  | CallShowCount on => VBool on
  | CallMissingDigit missing => VRune missing
  | CallTrailingLF on => VBool on
  | CallLeadingDecimal on => VBool on
  | CallBufferSize size => VInt size
  end.

(** The last option of the list that assigns field [f]. *)
Fixpoint last_for (f : Field) (calls : list OptionCall) : option OptionCall :=
  match calls with
  | [] => None
  | c :: rest =>
      match last_for f rest with
      | Some c' => Some c'
      | None => if Field_eqb f (target c) then Some c else None
      end
  end.

(* ------------------------------------------------------------------ *)
(** ** Destinations and sources used in examples *)

(** A destination that accepts [room] more bytes and then fails (the
    spec's "failing-after-N-bytes test sink"). *)
Record FailingWriter : Type := { accepted : string; room : nat }.

Definition FailingWriter_Write (s : string) (w : FailingWriter)
    : FailingWriter * (Z * option error) :=
  if (String.length s <=? room w)%nat then
    ({| accepted := accepted w ++ s; room := room w - String.length s |},
     (Z.of_nat (String.length s), None))
  else
    ({| accepted := accepted w ++ substring 0 (room w) s; room := 0 |},
     (Z.of_nat (room w), Some "no room left"%string)).

#[export] Instance FailingWriter_IoWriter : IoWriter FailingWriter :=
  {| Write := FailingWriter_Write |}.

(** A count margin: the position in decimal and a space. *)
Definition decimal_margin (extent pos : Z) : string :=
  NilZero.string_of_int (Z.to_int pos) ++ " ".

(** The digits 1, 4, 1, 4, 2, 1, 3, 5, 6, 2, 3, 7 at positions 0 to 11. *)
Definition sqrt2_digits : list (Z * Z) :=
  [(0, 1); (1, 4); (2, 1); (3, 4); (4, 2); (5, 1);
   (6, 3); (7, 5); (8, 6); (9, 2); (10, 3); (11, 7)].

(** A [Printable] that knows the digits of a list. *)
Definition Printable_of_list (l : list (Z * Z)) : Printable :=
  {| AllInRange := fun start end_ =>
       Seq2_of_list
         (filter (fun x => (start <=? fst x) && (fst x <? end_)) l) |}.

(** A [Writable] that knows the digits of a list. *)
Definition Writable_of_list (l : list (Z * Z)) : Writable :=
  {| All := Seq2_of_list l; Backward := Seq2_of_list (rev l) |}.

(** The positions 0 to 4 and 7 to 11. *)
Definition two_ranges : Positions :=
  {| ranges := [ {| Start := 0; End := 5 |}; {| Start := 7; End := 12 |} ] |}.

(** A destination with no room: the first write fails. *)
Definition full_writer : FailingWriter :=
  {| accepted := EmptyString; room := 0 |}.





(** A [Writable] whose backward traversal never ends: it yields the
    positions 100, 99, 98, ... without bound. *)
Definition endless_backward : Writable :=
  {| All := Seq2_of_list [];
     Backward := fun n => Some (100 - Z.of_nat n, 0) |}.

(* ------------------------------------------------------------------ *)
(** ** What a driving loop did, read off its log and its printer *)

(** The pairs handed to [Consume], in order. *)
Fixpoint consumed_pairs (t : list Event) : list (Z * Z) :=
  match t with
  | [] => []
  | Consumed _ posit digit :: t' => (posit, digit) :: consumed_pairs t'
  | _ :: t' => consumed_pairs t'
  end.

(** The indices of the pairs requested from the iterator, in order. *)
Fixpoint pulled (t : list Event) : list nat :=
  match t with
  | [] => []
  | Pulled i :: t' => i :: pulled t'
  | _ :: t' => pulled t'
  end.

(** The first [k] pairs an iterator yields from its [i]-th on, fewer when
    it ends before. *)
Fixpoint yielded (it : Seq2) (i : nat) (k : nat) : list (Z * Z) :=
  match k with
  | O => []
  | S k' =>
      match it i with
      | Some x => x :: yielded it (S i) k'
      | None => []
      end
  end.

Section DrivingReference.

Context {W : Type} {ops : PrinterOps W}.

(** The printer after [Consume] of each pair of a list, in order. *)
Definition feed (l : list (Z * Z)) (pr : printer) : printer :=
  fold_left (fun pr x => Consume (fst x) (snd x) pr) l pr.

(** The printer after [Consume] of the pairs of a list, in order, up to
    and including the first after which it cannot consume. *)
Fixpoint drive (l : list (Z * Z)) (pr : printer) : printer :=
  match l with
  | [] => pr
  | (posit, digit) :: rest =>
      let pr' := Consume posit digit pr in
      if CanConsume pr' then drive rest pr' else pr'
  end.

(** What [Fprint] and [Fwrite] return for a finished printer. *)
Definition outcome (pr : printer) : W * (Z * option error) :=
  (writer pr, (BytesWritten pr, Err pr)).

End DrivingReference.

(** The digits of a list that lie in a range: what [Printable_of_list]
    yields for it. *)
Definition digits_in (l : list (Z * Z)) (r : PositionRange) : list (Z * Z) :=
  filter (fun x => (Start r <=? fst x) && (fst x <? End r)) l.

(** A [Printable] that never runs out: asked for a range it yields the
    digit 1 at its start, at the next position, and so on without end. *)
Definition endless_ones : Printable :=
  {| AllInRange := fun start _ n => Some (start + Z.of_nat n, 1) |}.

(** A [Writable] whose forward traversal never ends, with the position 4
    as the first of its backward traversal. *)
Definition endless_forward : Writable :=
  {| All := fun n => Some (Z.of_nat n, 1);
     Backward := Seq2_of_list [(4, 1)] |}.

(* ================================================================== *)
(** * Properties *)

(** ** Go's [int] *)

Lemma GoInt_wrap_in_range (z : Z) : GoInt.in_range z -> GoInt.wrap z = z.
Proof.
  unfold GoInt.in_range, GoInt.wrap, GoInt.min_int, GoInt.max_int. intros H.
  rewrite Z.mod_small; lia.
Qed.

Lemma GoInt_add_no_overflow (a b : Z) :
  GoInt.in_range (a + b) -> GoInt.add a b = a + b.
Proof. apply GoInt_wrap_in_range. Qed.

(** ** Logs *)

Lemma trace_bind {A B : Type} (m : Run A) (k : A -> Run B) :
  trace (bind m k) =
  trace m ++ match result m with Some a => trace (k a) | None => [] end.
Proof.
  destruct m as [t [a|]]; simpl.
  - destruct (k a); reflexivity.
  - now rewrite app_nil_r.
Qed.

Lemma result_bind {A B : Type} (m : Run A) (k : A -> Run B) :
  result (bind m k) =
  match result m with Some a => result (k a) | None => None end.
Proof.
  destruct m as [t [a|]]; simpl; [destruct (k a)|]; reflexivity.
Qed.

Lemma after_stop_app_no_stop (t u : list Event) :
  forallb (fun e => negb (is_stop e)) t = true ->
  after_stop (t ++ u) = after_stop u.
Proof.
  induction t as [|e t IH]; simpl; [reflexivity|].
  intros H. apply andb_prop in H as [He Ht].
  destruct e as [[|]| | |]; simpl in *; try discriminate; auto.
Qed.

Lemma after_stop_at_stop (t u : list Event) :
  forallb (fun e => negb (is_stop e)) t = true ->
  after_stop (t ++ Checked false :: u) = u.
Proof.
  intros H. now rewrite after_stop_app_no_stop.
Qed.

Lemma rechecked_app (t u : list Event) :
  rechecked t = true -> rechecked u = true ->
  (forall can posit digit, last t (Checked true) <> Consumed can posit digit) ->
  rechecked (t ++ u) = true.
Proof.
  induction t as [|e t IH]; simpl; intros Ht Hu Hlast; [assumption|].
  destruct e as [b|i|can posit digit|a b].
  - apply IH; auto. intros c x y. specialize (Hlast c x y).
    destruct t; [discriminate|exact Hlast].
  - apply IH; auto. intros c x y. specialize (Hlast c x y).
    destruct t; [discriminate|exact Hlast].
  - destruct t as [|e' t]; [discriminate|].
    destruct e'; try discriminate. simpl app.
    apply IH; auto.
  - apply IH; auto. intros c x y. specialize (Hlast c x y).
    destruct t; [discriminate|exact Hlast].
Qed.

Lemma queries_app (t u : list Event) : queries (t ++ u) = queries t ++ queries u.
Proof.
  induction t as [|e t IH]; simpl; [reflexivity|].
  destruct e; simpl; now rewrite IH.
Qed.

(** ** The loop of [fromIterator] *)

Section DrivingFacts.

Context {W : Type} {ops : PrinterOps W}.

(** One iteration of the loop, spelled out. *)
Lemma fromIterator_loop_step (fuel : nat) (it : Seq2) (i : nat) (pr : printer) :
  rangeSeq2 (S fuel) it i fromIterator_body pr =
  match it i with
  | None => ([Pulled i], Some (Continue pr))
  | Some (posit, digit) =>
      if CanConsume (Consume posit digit pr) then
        (Pulled i :: Consumed (CanConsume pr) posit digit :: Checked true
           :: trace (rangeSeq2 fuel it (S i) fromIterator_body
                       (Consume posit digit pr)),
         result (rangeSeq2 fuel it (S i) fromIterator_body
                   (Consume posit digit pr)))
      else
        ([Pulled i; Consumed (CanConsume pr) posit digit; Checked false],
         Some (Return (Consume posit digit pr)))
  end.
Proof.
  cbn [rangeSeq2]. destruct (it i) as [[posit digit]|]; [|reflexivity].
  unfold fromIterator_body.
  destruct (CanConsume (Consume posit digit pr)) eqn:E; cbn; rewrite ?E; cbn.
  - destruct (rangeSeq2 fuel it (S i) _ _) as [t o]. reflexivity.
  - reflexivity.
Qed.

Lemma fromIterator_loop_rounds (fuel : nat) (it : Seq2) :
  forall (i : nat) (pr : printer),
    CanConsume pr = true ->
    rounds (trace (rangeSeq2 fuel it i fromIterator_body pr)).
Proof.
  induction fuel as [|fuel IH]; intros i pr Hcan.
  - constructor.
  - rewrite fromIterator_loop_step.
    destruct (it i) as [[posit digit]|]; [|constructor].
    rewrite Hcan.
    destruct (CanConsume (Consume posit digit pr)) eqn:E; cbn.
    + constructor. now apply IH.
    + constructor.
Qed.

Lemma rounds_consumed_while_can (t : list Event) :
  rounds t -> forallb consumed_while_can t = true.
Proof. induction 1; simpl; auto. Qed.

Lemma rounds_after_stop (t : list Event) : rounds t -> after_stop t = [].
Proof. induction 1; simpl; auto. Qed.

Lemma rounds_rechecked (t : list Event) : rounds t -> rechecked t = true.
Proof. induction 1; simpl; auto. Qed.

Lemma rounds_no_query (t : list Event) :
  rounds t -> forallb (fun e => negb (is_query e)) t = true.
Proof. induction 1; simpl; auto. Qed.

(** [fromIterator] on a printer that cannot consume. *)
Lemma fromIterator_stopped (fuel : nat) (it : Seq2) (pr : printer) :
  CanConsume pr = false ->
  fromIterator fuel it pr = ([Checked false], Some pr).
Proof.
  intros H. unfold fromIterator. rewrite H. reflexivity.
Qed.

(** [fromIterator] on a printer that can consume. *)
Lemma fromIterator_started (fuel : nat) (it : Seq2) (pr : printer) :
  CanConsume pr = true ->
  fromIterator fuel it pr =
  (Checked true :: trace (rangeSeq2 fuel it 0 fromIterator_body pr),
   option_map leaves (result (rangeSeq2 fuel it 0 fromIterator_body pr))).
Proof.
  intros H. unfold fromIterator. rewrite H. cbn.
  destruct (rangeSeq2 fuel it 0 fromIterator_body pr) as [t [f|]]; cbn;
    rewrite ?app_nil_r; reflexivity.
Qed.

End DrivingFacts.

Section CooperativeDriving.

Context {W : Type} {ops : PrinterOps W}.

Lemma fromIterator_log (fuel : nat) (it : Seq2) (pr : printer) :
  exists t, trace (fromIterator fuel it pr) = Checked (CanConsume pr) :: t
            /\ (CanConsume pr = false -> t = [])
            /\ rounds t.
Proof.
  destruct (CanConsume pr) eqn:E.
  - rewrite (fromIterator_started _ _ _ E). eexists. split; [reflexivity|].
    split; [discriminate|]. now apply fromIterator_loop_rounds.
  - rewrite (fromIterator_stopped _ _ _ E). exists []. repeat split. constructor.
Qed.

Lemma fromIterator_consumed (fuel : nat) (it : Seq2) (pr : printer) :
  forallb consumed_while_can (trace (fromIterator fuel it pr)) = true.
Proof.
  destruct (fromIterator_log fuel it pr) as (t & Ht & _ & Hr). rewrite Ht.
  simpl. now apply rounds_consumed_while_can.
Qed.

Lemma fromIterator_rechecked (fuel : nat) (it : Seq2) (pr : printer) :
  rechecked (trace (fromIterator fuel it pr)) = true.
Proof.
  destruct (fromIterator_log fuel it pr) as (t & Ht & _ & Hr). rewrite Ht.
  simpl. now apply rounds_rechecked.
Qed.

Lemma fromIterator_after_stop (fuel : nat) (it : Seq2) (pr : printer) :
  after_stop (trace (fromIterator fuel it pr)) = [].
Proof.
  destruct (fromIterator_log fuel it pr) as (t & Ht & Hstop & Hr). rewrite Ht.
  destruct (CanConsume pr) eqn:E; simpl.
  - now apply rounds_after_stop.
  - now apply Hstop.
Qed.

(** C2. [fromIterator] drives the printer cooperatively, whatever the
    iterator and the printer: when [CanConsume()] is false at entry it
    returns without requesting a pair; every pair is passed to [Consume]
    on a printer for which [CanConsume()] is true; [CanConsume()] is called
    again right after each [Consume]; and nothing is requested or consumed
    once it has returned false.  This holds of every finite part of the
    execution (every amount of fuel). *)
Theorem fromIterator_cooperative (fuel : nat) (it : Seq2) (pr : printer) :
  (CanConsume pr = false ->
   fromIterator fuel it pr = ([Checked false], Some pr)) /\
  (exists t, trace (fromIterator fuel it pr) = Checked (CanConsume pr) :: t) /\
  forallb consumed_while_can (trace (fromIterator fuel it pr)) = true /\
  rechecked (trace (fromIterator fuel it pr)) = true /\
  after_stop (trace (fromIterator fuel it pr)) = [].
Proof.
  split; [apply fromIterator_stopped|].
  split.
  - destruct (fromIterator_log fuel it pr) as (t & Ht & _). now exists t.
  - split; [apply fromIterator_consumed|].
    split; [apply fromIterator_rechecked|apply fromIterator_after_stop].
Qed.

End CooperativeDriving.

(** ** Ranging over the positions *)

Section RangeDriving.

Context {W : Type} {ops : PrinterOps W}.

Lemma idle_log_no_input (rs : list PositionRange) :
  forallb (fun e => negb (is_input e)) (idle_log rs) = true.
Proof. induction rs; simpl; auto. Qed.

Lemma idle_log_queries (rs : list PositionRange) : queries (idle_log rs) = rs.
Proof.
  induction rs as [|[a b] rs IH]; simpl; [reflexivity|]. now rewrite IH.
Qed.

Lemma idle_log_rechecked (rs : list PositionRange) :
  rechecked (idle_log rs) = true.
Proof. induction rs; simpl; auto. Qed.

Lemma idle_log_consumed (rs : list PositionRange) :
  forallb consumed_while_can (idle_log rs) = true.
Proof. induction rs; simpl; auto. Qed.

Lemma fromRanges_stopped (fuel : nat) (s : Printable)
    (rs : list PositionRange) (pr : printer) :
  CanConsume pr = false ->
  fromRanges fuel s rs pr = (idle_log rs, Some pr).
Proof.
  intros H. induction rs as [|r rs IH]; [reflexivity|].
  cbn [fromRanges]. rewrite (fromIterator_stopped _ _ _ H).
  cbn. rewrite IH. reflexivity.
Qed.

(** How the loop of [fromIterator] ends: with a check that returned
    false, on a printer that cannot consume; or without any such check. *)
Lemma fromIterator_loop_ends (fuel : nat) (it : Seq2) :
  forall (i : nat) (pr : printer),
    let r := rangeSeq2 fuel it i fromIterator_body pr in
    (exists t0 pr', trace r = t0 ++ [Checked false]
                    /\ forallb (fun e => negb (is_stop e)) t0 = true
                    /\ result r = Some (Return pr')
                    /\ CanConsume pr' = false)
    \/ forallb (fun e => negb (is_stop e)) (trace r) = true.
Proof.
  induction fuel as [|fuel IH]; intros i pr r; subst r.
  - right. reflexivity.
  - rewrite fromIterator_loop_step.
    destruct (it i) as [[posit digit]|]; [|right; reflexivity].
    destruct (CanConsume (Consume posit digit pr)) eqn:E.
    + destruct (IH (S i) (Consume posit digit pr))
        as [(t0 & pr' & Ht & Hn & Hr & Hc)|Hn].
      * left. exists (Pulled i :: Consumed (CanConsume pr) posit digit
                        :: Checked true :: t0), pr'.
        cbn [trace result fst snd]. cbn [trace] in Ht. rewrite Ht.
        repeat split; auto.
      * right. cbn [trace fst]. cbn. exact Hn.
    + left. exists [Pulled i; Consumed (CanConsume pr) posit digit],
        (Consume posit digit pr).
      repeat split; auto.
Qed.

Lemma fromIterator_ends (fuel : nat) (it : Seq2) (pr : printer) :
  let r := fromIterator fuel it pr in
  (exists t0 pr', trace r = t0 ++ [Checked false]
                  /\ forallb (fun e => negb (is_stop e)) t0 = true
                  /\ result r = Some pr'
                  /\ CanConsume pr' = false)
  \/ forallb (fun e => negb (is_stop e)) (trace r) = true.
Proof.
  intros r. subst r. destruct (CanConsume pr) eqn:E.
  - rewrite (fromIterator_started _ _ _ E).
    destruct (fromIterator_loop_ends fuel it 0 pr)
      as [(t0 & pr' & Ht & Hn & Hr & Hc)|Hn].
    + left. exists (Checked true :: t0), pr'. cbn [trace result fst snd].
      cbn [trace] in Ht. rewrite Ht. cbn [result] in Hr. rewrite Hr.
      repeat split; auto.
    + right. exact Hn.
  - rewrite (fromIterator_stopped _ _ _ E). left. exists [], pr.
    repeat split; auto.
Qed.

Lemma rounds_last (t : list Event) (can : bool) (posit digit : Z) :
  rounds t -> last t (Checked true) <> Consumed can posit digit.
Proof.
  induction 1; try discriminate.
  cbn [last]. destruct t; [discriminate|exact IHrounds].
Qed.

Lemma fromIterator_last (fuel : nat) (it : Seq2) (pr : printer)
    (can : bool) (posit digit : Z) :
  last (trace (fromIterator fuel it pr)) (Checked true)
  <> Consumed can posit digit.
Proof.
  destruct (fromIterator_log fuel it pr) as (t & Ht & _ & Hr). rewrite Ht.
  cbn [last]. destruct t; [discriminate|]. now apply rounds_last.
Qed.

Lemma fromIterator_queries (fuel : nat) (it : Seq2) (pr : printer) :
  queries (trace (fromIterator fuel it pr)) = [].
Proof.
  destruct (fromIterator_log fuel it pr) as (t & Ht & _ & Hr). rewrite Ht.
  cbn [queries]. clear Ht. induction Hr; simpl; auto.
Qed.

Lemma fromRanges_log (fuel : nat) (s : Printable) (r : PositionRange)
    (rs : list PositionRange) (pr : printer) :
  trace (fromRanges fuel s (r :: rs) pr) =
  Queried (Start r) (End r)
    :: trace (fromIterator fuel (AllInRange s (Start r) (End r)) pr)
    ++ match result (fromIterator fuel (AllInRange s (Start r) (End r)) pr) with
       | Some pr' => trace (fromRanges fuel s rs pr')
       | None => []
       end.
Proof.
  cbn [fromRanges]. rewrite trace_bind. cbn [tell trace result fst snd app].
  now rewrite trace_bind.
Qed.

Lemma fromRanges_result (fuel : nat) (s : Printable) (r : PositionRange)
    (rs : list PositionRange) (pr : printer) :
  result (fromRanges fuel s (r :: rs) pr) =
  match result (fromIterator fuel (AllInRange s (Start r) (End r)) pr) with
  | Some pr' => result (fromRanges fuel s rs pr')
  | None => None
  end.
Proof.
  cbn [fromRanges]. rewrite result_bind. cbn [tell trace result fst snd].
  now rewrite result_bind.
Qed.

Lemma fromRanges_consumed (fuel : nat) (s : Printable)
    (rs : list PositionRange) :
  forall pr, forallb consumed_while_can (trace (fromRanges fuel s rs pr)) = true.
Proof.
  induction rs as [|r rs IH]; intros pr; [reflexivity|].
  rewrite fromRanges_log. cbn [forallb consumed_while_can andb].
  rewrite forallb_app.
  rewrite fromIterator_consumed. cbn.
  destruct (result _); [apply IH|reflexivity].
Qed.

Lemma fromRanges_rechecked (fuel : nat) (s : Printable)
    (rs : list PositionRange) :
  forall pr, rechecked (trace (fromRanges fuel s rs pr)) = true.
Proof.
  induction rs as [|r rs IH]; intros pr; [reflexivity|].
  rewrite fromRanges_log. cbn [rechecked].
  apply rechecked_app.
  - apply fromIterator_rechecked.
  - destruct (result _); [apply IH|reflexivity].
  - intros. apply fromIterator_last.
Qed.

Lemma fromRanges_after_stop (fuel : nat) (s : Printable)
    (rs : list PositionRange) :
  forall pr,
    forallb (fun e => negb (is_input e))
      (after_stop (trace (fromRanges fuel s rs pr))) = true.
Proof.
  induction rs as [|r rs IH]; intros pr; [reflexivity|].
  rewrite fromRanges_log. cbn [after_stop].
  destruct (fromIterator_ends fuel (AllInRange s (Start r) (End r)) pr)
    as [(t0 & pr' & Ht & Hn & Hr & Hc)|Hn].
  - rewrite Ht, Hr, <- app_assoc. cbn [app].
    rewrite (after_stop_at_stop _ _ Hn).
    rewrite (fromRanges_stopped _ _ _ _ Hc). apply idle_log_no_input.
  - rewrite (after_stop_app_no_stop _ _ Hn).
    destruct (result _); [apply IH|reflexivity].
Qed.

Lemma fromRanges_queries (fuel : nat) (s : Printable)
    (rs : list PositionRange) :
  forall pr pr',
    result (fromRanges fuel s rs pr) = Some pr' ->
    queries (trace (fromRanges fuel s rs pr)) = rs.
Proof.
  induction rs as [|r rs IH]; intros pr pr' H; [reflexivity|].
  rewrite fromRanges_log. rewrite fromRanges_result in H.
  cbn [queries]. rewrite queries_app, fromIterator_queries. cbn [app].
  destruct (result (fromIterator _ _ _)) as [pr1|]; [|discriminate].
  rewrite (IH _ _ H). now destruct r.
Qed.

Lemma Fprint_log (fuel : nat) (w : W) (s : Printable) (p : Positions)
    (options : list Option) :
  trace (Fprint fuel w s p options) =
  trace (fromRanges fuel s (Positions_All p)
           (newPrinter w (Positions_End p)
              (mutateSettings options Fprint_settings))).
Proof.
  unfold Fprint, Fprint_printer, fromSequenceWithPositions.
  destruct (fromRanges _ _ _ _) as [t [pr|]]; cbn; now rewrite ?app_nil_r.
Qed.

Lemma Fprint_returns_when (fuel : nat) (w : W) (s : Printable)
    (p : Positions) (options : list Option) r :
  result (Fprint fuel w s p options) = Some r ->
  exists pr, result (fromRanges fuel s (Positions_All p)
                       (newPrinter w (Positions_End p)
                          (mutateSettings options Fprint_settings))) = Some pr.
Proof.
  unfold Fprint, Fprint_printer, fromSequenceWithPositions.
  destruct (fromRanges _ _ _ _) as [t [pr|]]; cbn; [eauto|discriminate].
Qed.

End RangeDriving.

Section RangeTheorem.

Context {W : Type} {ops : PrinterOps W}.

(** C4. [Fwrite] makes its printer with the extent [endOf] computes, and
    [endOf] computes it from the first pair of the backward traversal: one
    more than its position (in Go's [int], which is the number [p + 1]
    unless [p] is the largest [int]), and 0 when the traversal is empty. *)
Theorem Fwrite_extent_from_backward (fuel : nat) (w : W) (s : Writable)
    (options : list Option) :
  let extent :=
    match Backward s 0%nat with
    | Some (p, _) => GoInt.add p 1
    | None => 0
    end in
  endOf (S fuel) s = ([Pulled 0], Some extent) /\
  Fwrite_printer (S fuel) w s options =
    (tell (Pulled 0) ;;;
     pr <- fromIterator (S fuel) (All s)
             (newPrinter w extent (mutateSettings options Fwrite_settings)) ;;
     ret (Finish pr)) /\
  (forall p d, Backward s 0%nat = Some (p, d) ->
               GoInt.in_range p -> p <> GoInt.max_int -> extent = p + 1) /\
  (Backward s 0%nat = None -> extent = 0).
Proof.
  cbv zeta.
  assert (E : endOf (S fuel) s =
              ([Pulled 0],
               Some match Backward s 0%nat with
                    | Some (p, _) => GoInt.add p 1
                    | None => 0
                    end)).
  { unfold endOf. cbn [rangeSeq2]. now destruct (Backward s 0%nat) as [[p d]|]. }
  split; [exact E|]. split; [|split].
  - unfold Fwrite_printer. rewrite E. reflexivity.
  - intros p d H Hr Hmax. rewrite H. apply GoInt_add_no_overflow.
    unfold GoInt.in_range, GoInt.max_int, GoInt.min_int in *. lia.
  - intros H. now rewrite H.
Qed.

End RangeTheorem.

(** C10. When the backward traversal yields a pair, [endOf] returns after
    requesting that pair alone, for any amount of fuel but none: the log
    holds one request, the result is one more than the pair's position,
    and every source with the same first pair gives the same result,
    however long its backward traversal goes on. *)
Theorem endOf_pulls_first_only (fuel : nat) (s : Writable) (index digit : Z) :
  Backward s 0%nat = Some (index, digit) ->
  endOf (S fuel) s = ([Pulled 0], Some (GoInt.add index 1)) /\
  pulls (trace (endOf (S fuel) s)) = 1%nat /\
  (forall s', Backward s' 0%nat = Backward s 0%nat ->
              endOf (S fuel) s' = endOf (S fuel) s).
Proof.
  intros H.
  assert (E : forall s', Backward s' 0%nat = Some (index, digit) ->
                         endOf (S fuel) s' = ([Pulled 0], Some (GoInt.add index 1))).
  { intros s' H'. unfold endOf. cbn [rangeSeq2]. now rewrite H'. }
  split; [now apply E|]. split.
  - now rewrite (E s H).
  - intros s' H'. rewrite (E s H). apply E. congruence.
Qed.

(** The extent of a backward traversal that never ends. *)
Lemma endOf_pulls_first_only_witness :
  endOf 1 endless_backward = ([Pulled 0], Some 101) /\
  pulls (trace (endOf 1 endless_backward)) = 1%nat /\
  (forall s', Backward s' 0%nat = Backward endless_backward 0%nat ->
              endOf 1 s' = endOf 1 endless_backward).
Proof.
  exact (endOf_pulls_first_only 0 endless_backward 100 0 eq_refl).
Defined.

(** ** Settings *)

Section Defaults.

Context {W : Type} {ops : PrinterOps W}.

(** C5. With no options [Fprint] makes its printer with exactly the
    settings it is seeded with: 50 digits per row, 5 per column, the count
    margin shown, ['.'] for a missing digit, no trailing line feed, the
    leading decimal shown (and no buffer size). *)
Theorem Fprint_default_settings (fuel : nat) (w : W) (s : Printable)
    (p : Positions) :
  mutateSettings [] Fprint_settings =
    {| digitsPerRow := 50;
       digitsPerColumn := 5;
       showCount := true;
       missingDigit := 46;
       trailingLineFeed := false;
       leadingDecimal := true;
       bufferSize := 0 |} /\
  utf8 (missingDigit Fprint_settings) = "."%string /\
  Fprint_printer fuel w s p [] =
    (pr <- fromSequenceWithPositions fuel s p
             (newPrinter w (Positions_End p)
                {| digitsPerRow := 50;
                   digitsPerColumn := 5;
                   showCount := true;
                   missingDigit := 46;
                   trailingLineFeed := false;
                   leadingDecimal := true;
                   bufferSize := 0 |}) ;;
     ret (Finish pr)).
Proof. repeat split. Qed.

(** C6. With no options [Fwrite] makes its printer with exactly the
    settings it is seeded with: 50 digits per row, 5 per column, the count
    margin shown, ['.'] for a missing digit, the trailing line feed on, no
    leading decimal (and no buffer size). *)
Theorem Fwrite_default_settings (fuel : nat) (w : W) (s : Writable) :
  mutateSettings [] Fwrite_settings =
    {| digitsPerRow := 50;
       digitsPerColumn := 5;
       showCount := true;
       missingDigit := 46;
       trailingLineFeed := true;
       leadingDecimal := false;
       bufferSize := 0 |} /\
  utf8 (missingDigit Fwrite_settings) = "."%string /\
  Fwrite_printer fuel w s [] =
    (extent <- endOf fuel s ;;
     pr <- fromIterator fuel (All s)
             (newPrinter w extent
                {| digitsPerRow := 50;
                   digitsPerColumn := 5;
                   showCount := true;
                   missingDigit := 46;
                   trailingLineFeed := true;
                   leadingDecimal := false;
                   bufferSize := 0 |}) ;;
     ret (Finish pr)).
Proof. repeat split. Qed.

End Defaults.

Lemma mutate_build (c : OptionCall) (s : printerSettings) (g : Field) :
  get g (mutate (build c) s) =
  if Field_eqb g (target c) then assigned c else get g s.
Proof. destruct c, g; reflexivity. Qed.

Lemma mutateSettings_app (xs ys : list Option) (s : printerSettings) :
  mutateSettings (xs ++ ys) s = mutateSettings ys (mutateSettings xs s).
Proof.
  revert s. induction xs as [|x xs IH]; intros s; [reflexivity|]. apply IH.
Qed.

Lemma mutateSettings_get (calls : list OptionCall) :
  forall (s : printerSettings) (f : Field),
    get f (mutateSettings (map build calls) s) =
    match last_for f calls with
    | Some c => assigned c
    | None => get f s
    end.
Proof.
  induction calls as [|c calls IH]; intros s f; [reflexivity|].
  cbn [map mutateSettings last_for]. rewrite IH.
  destruct (last_for f calls); [reflexivity|].
  rewrite mutate_build. now destruct (Field_eqb f (target c)).
Qed.

(** C7. Every option assigns one field, its own, and leaves the others as
    they are; a list of options is applied in call order, one after the
    other; so each field ends with the value of the last option of the
    list that assigns it, and with its seeded value when none does. *)
Theorem options_applied_in_order (calls : list OptionCall)
    (defaults : printerSettings) :
  (forall c s g,
     get g (mutate (build c) s) =
     if Field_eqb g (target c) then assigned c else get g s) /\
  (forall c,
     mutateSettings (map build (calls ++ [c])) defaults =
     mutate (build c) (mutateSettings (map build calls) defaults)) /\
  (forall f,
     get f (mutateSettings (map build calls) defaults) =
     match last_for f calls with
     | Some c => assigned c
     | None => get f defaults
     end).
Proof.
  split; [intros; apply mutate_build|]. split.
  - intros c. now rewrite map_app, mutateSettings_app.
  - intros f. apply mutateSettings_get.
Qed.

(** ** Invariants and termination of the driving loops *)

Section DrivingInduction.

Context {W : Type} {ops : PrinterOps W}.

(** A property of the printer that every [Consume] of a pair the
    iterator yields keeps is kept by [fromIterator]. *)
Lemma fromIterator_loop_invariant (I : printer -> Prop) (it : Seq2) :
  (forall i posit digit pr,
     it i = Some (posit, digit) -> I pr -> CanConsume pr = true ->
     I (Consume posit digit pr)) ->
  forall fuel i pr f,
    I pr -> CanConsume pr = true ->
    result (rangeSeq2 fuel it i fromIterator_body pr) = Some f ->
    I (leaves f).
Proof.
  intros Hstep. induction fuel as [|fuel IH]; intros i pr f HI Hcan.
  - discriminate.
  - rewrite fromIterator_loop_step.
    destruct (it i) as [[posit digit]|] eqn:Hi.
    + destruct (CanConsume (Consume posit digit pr)) eqn:E; cbn [result snd].
      * apply IH; eauto.
      * intros [= <-]. cbn. eauto.
    + intros [= <-]. exact HI.
Qed.

Lemma fromIterator_invariant (I : printer -> Prop) (it : Seq2)
    (fuel : nat) (pr pr' : printer) :
  (forall i posit digit pr,
     it i = Some (posit, digit) -> I pr -> CanConsume pr = true ->
     I (Consume posit digit pr)) ->
  I pr ->
  result (fromIterator fuel it pr) = Some pr' ->
  I pr'.
Proof.
  intros Hstep HI. destruct (CanConsume pr) eqn:E.
  - rewrite (fromIterator_started _ _ _ E). cbn [result snd].
    destruct (result (rangeSeq2 fuel it 0 fromIterator_body pr)) as [f|] eqn:Hf;
      [|discriminate].
    intros [= <-]. eapply fromIterator_loop_invariant; eauto.
  - rewrite (fromIterator_stopped _ _ _ E). now intros [= <-].
Qed.

(** Termination: a measure that every [Consume] on a printer that can
    consume lowers bounds the number of rounds. *)
Variable remaining : printer -> nat.

Hypothesis Consume_progress :
  forall posit digit pr,
    CanConsume pr = true ->
    (remaining (Consume posit digit pr) < remaining pr)%nat.

Lemma fromIterator_loop_returns (it : Seq2) :
  forall fuel i pr,
    CanConsume pr = true ->
    (remaining pr <= fuel)%nat ->
    exists f, result (rangeSeq2 fuel it i fromIterator_body pr) = Some f
              /\ (remaining (leaves f) <= remaining pr)%nat.
Proof.
  induction fuel as [|fuel IH]; intros i pr Hcan Hfuel.
  - pose proof (Consume_progress 0 0 pr Hcan). lia.
  - rewrite fromIterator_loop_step.
    destruct (it i) as [[posit digit]|].
    + pose proof (Consume_progress posit digit pr Hcan) as Hlt.
      destruct (CanConsume (Consume posit digit pr)) eqn:E; cbn [result snd].
      * destruct (IH (S i) (Consume posit digit pr) E) as (f & Hf & Hle);
          [lia|].
        exists f. split; [exact Hf|lia].
      * eexists. split; [reflexivity|]. cbn. lia.
    + eexists. split; [reflexivity|]. cbn. lia.
Qed.

Lemma fromIterator_returns (it : Seq2) (fuel : nat) (pr : printer) :
  (remaining pr <= fuel)%nat ->
  exists pr', result (fromIterator fuel it pr) = Some pr'
              /\ (remaining pr' <= remaining pr)%nat.
Proof.
  intros Hfuel. destruct (CanConsume pr) eqn:E.
  - rewrite (fromIterator_started _ _ _ E).
    destruct (fromIterator_loop_returns it fuel 0 pr E Hfuel) as (f & Hf & Hle).
    exists (leaves f). cbn [result snd]. cbn [result] in Hf. now rewrite Hf.
  - rewrite (fromIterator_stopped _ _ _ E). exists pr. split; [reflexivity|lia].
Qed.

Lemma fromRanges_returns (fuel : nat) (s : Printable)
    (rs : list PositionRange) :
  forall pr,
    (remaining pr <= fuel)%nat ->
    exists pr', result (fromRanges fuel s rs pr) = Some pr'.
Proof.
  induction rs as [|r rs IH]; intros pr Hfuel.
  - now exists pr.
  - rewrite fromRanges_result.
    destruct (fromIterator_returns (AllInRange s (Start r) (End r)) fuel pr Hfuel)
      as (pr1 & H1 & Hle).
    rewrite H1. apply IH. lia.
Qed.

End DrivingInduction.

(** ** The layout engine *)






Lemma positions_from_length (first : Z) (n : nat) :
  List.length (positions_from first n) = n.
Proof.
  revert first. induction n as [|n IH]; intros first; cbn; [|rewrite IH];
    reflexivity.
Qed.

Section EngineFacts.

Context {W : Type} {io : IoWriter W}.

Variable margin : Z -> Z -> string.

Lemma emit_frame (tok : Token) (pr : lprinter) :
  p_extent (emit margin tok pr) = p_extent pr /\
  p_settings (emit margin tok pr) = p_settings pr /\
  p_cursor (emit margin tok pr) = p_cursor pr.
Proof.
  unfold emit. destruct (p_err pr); [auto|].
  destruct (Write _ _) as [w [n e]]. auto.
Qed.

Lemma emit_stuck (tok : Token) (pr : lprinter) (e : error) :
  p_err pr = Some e -> emit margin tok pr = pr.
Proof. intros H. unfold emit. now rewrite H. Qed.

Lemma emit_err_before (tok : Token) (pr : lprinter) :
  p_err (emit margin tok pr) = None -> p_err pr = None.
Proof.
  destruct (p_err pr) as [e|] eqn:E; [|reflexivity].
  rewrite (emit_stuck tok pr e E). congruence.
Qed.

Lemma emit_if_frame (b : bool) (tok : Token) (pr : lprinter) :
  p_extent (emit_if margin b tok pr) = p_extent pr /\
  p_settings (emit_if margin b tok pr) = p_settings pr /\
  p_cursor (emit_if margin b tok pr) = p_cursor pr.
Proof. destruct b; [apply emit_frame|auto]. Qed.

Lemma emit_if_stuck (b : bool) (tok : Token) (pr : lprinter) (e : error) :
  p_err pr = Some e -> emit_if margin b tok pr = pr.
Proof. destruct b; [apply emit_stuck|reflexivity]. Qed.

Lemma emit_if_err_before (b : bool) (tok : Token) (pr : lprinter) :
  p_err (emit_if margin b tok pr) = None -> p_err pr = None.
Proof. destruct b; [apply emit_err_before|auto]. Qed.

Lemma advance_frame (pr : @lprinter W) :
  p_extent (advance pr) = p_extent pr /\
  p_settings (advance pr) = p_settings pr /\
  p_err (advance pr) = p_err pr /\
  p_rendered (advance pr) = p_rendered pr /\
  p_writer (advance pr) = p_writer pr /\
  p_written (advance pr) = p_written pr.
Proof. unfold advance. destruct (p_err pr) eqn:E; cbn; auto 10. Qed.

Lemma advance_cursor (pr : @lprinter W) :
  p_err pr = None -> p_cursor (advance pr) = p_cursor pr + 1.
Proof. intros H. unfold advance. now rewrite H. Qed.

Lemma render_stuck (slot : Z -> Token) (pr : lprinter) (e : error) :
  p_err pr = Some e -> render margin slot pr = pr.
Proof.
  intros H. unfold render.
  repeat first [ rewrite (emit_if_stuck _ _ pr e H)
               | rewrite (emit_stuck _ pr e H) ].
  unfold advance. now rewrite H.
Qed.

Lemma render_frame (slot : Z -> Token) (pr : lprinter) :
  p_extent (render margin slot pr) = p_extent pr /\
  p_settings (render margin slot pr) = p_settings pr.
Proof.
  unfold render.
  repeat match goal with
         | |- context [advance ?x] =>
             destruct (advance_frame x) as (-> & -> & _)
         | |- context [emit_if margin ?b ?t ?x] =>
             destruct (emit_if_frame b t x) as (-> & -> & _)
         | |- context [emit margin ?t ?x] =>
             destruct (emit_frame t x) as (-> & -> & _)
         end.
  auto.
Qed.

Lemma render_err_before (slot : Z -> Token) (pr : lprinter) :
  p_err (render margin slot pr) = None -> p_err pr = None.
Proof.
  destruct (p_err pr) as [e|] eqn:E; [|reflexivity].
  rewrite (render_stuck slot pr e E). congruence.
Qed.

Lemma render_cursor (slot : Z -> Token) (pr : lprinter) :
  p_err (render margin slot pr) = None ->
  p_cursor (render margin slot pr) = p_cursor pr + 1.
Proof.
  unfold render. intros H.
  match type of H with p_err (advance ?x) = None => set (last := x) in * end.
  destruct (advance_frame last) as (_ & _ & He & _). rewrite He in H.
  rewrite (advance_cursor last H). subst last.
  repeat match goal with
         | |- context [p_cursor (emit_if margin ?b ?t ?x)] =>
             destruct (emit_if_frame b t x) as (_ & _ & ->)
         | |- context [p_cursor (emit margin ?t ?x)] =>
             destruct (emit_frame t x) as (_ & _ & ->)
         end.
  reflexivity.
Qed.

Lemma placeholders_stuck (n : nat) (pr : lprinter) (e : error) :
  p_err pr = Some e -> placeholders margin n pr = pr.
Proof.
  intros H. induction n as [|n IH]; [reflexivity|].
  cbn [placeholders]. now rewrite (render_stuck _ pr e H).
Qed.

Lemma placeholders_frame (n : nat) :
  forall pr,
    p_extent (placeholders margin n pr) = p_extent pr /\
    p_settings (placeholders margin n pr) = p_settings pr.
Proof.
  induction n as [|n IH]; intros pr; [auto|].
  cbn [placeholders].
  destruct (IH (render margin
                  (fun pos => TMissing pos (missingDigit (p_settings pr))) pr))
    as [-> ->].
  apply render_frame.
Qed.

Lemma placeholders_err_before (n : nat) :
  forall pr, p_err (placeholders margin n pr) = None -> p_err pr = None.
Proof.
  induction n as [|n IH]; intros pr H; [exact H|].
  cbn [placeholders] in H. apply IH in H. now apply render_err_before in H.
Qed.

Lemma placeholders_cursor (n : nat) :
  forall pr,
    p_err (placeholders margin n pr) = None ->
    p_cursor (placeholders margin n pr) = p_cursor pr + Z.of_nat n.
Proof.
  induction n as [|n IH]; intros pr H; [cbn; lia|].
  cbn [placeholders] in *. rewrite (IH _ H).
  apply placeholders_err_before in H. rewrite (render_cursor _ _ H). lia.
Qed.

(** Every [Consume] on an engine that can consume brings it closer to
    the end: the cursor rises, or a write fails. *)
Lemma l_Consume_progress (posit digit : Z) (pr : lprinter) :
  l_CanConsume pr = true ->
  (remaining_positions (l_Consume margin posit digit pr)
   < remaining_positions pr)%nat.
Proof.
  intros Hcan. unfold l_Consume. rewrite Hcan. cbn [negb].
  unfold l_CanConsume in Hcan.
  destruct (p_err pr) eqn:E; [discriminate|]. apply Z.ltb_lt in Hcan.
  unfold remaining_positions at 2. rewrite E.
  set (pr1 := placeholders margin (Z.to_nat (posit - p_cursor pr)) pr).
  set (pr2 := render margin (fun pos => TDigit pos digit) pr1).
  unfold remaining_positions.
  destruct (p_err pr2) eqn:E2; [lia|].
  assert (E1 : p_err pr1 = None) by now apply render_err_before in E2.
  assert (Hc2 : p_cursor pr2 = p_cursor pr1 + 1) by now apply render_cursor.
  assert (Hc1 : p_cursor pr1
                = p_cursor pr + Z.of_nat (Z.to_nat (posit - p_cursor pr)))
    by now apply placeholders_cursor.
  assert (He : p_extent pr2 = p_extent pr).
  { subst pr2. destruct (render_frame (fun pos => TDigit pos digit) pr1)
      as [-> _]. subst pr1. now destruct (placeholders_frame
                                            (Z.to_nat (posit - p_cursor pr)) pr). }
  rewrite He, Hc2, Hc1. lia.
Qed.

End EngineFacts.



Section NeverFails.

Context {W : Type} {io : IoWriter W}.

Variable margin : Z -> Z -> string.

Hypothesis sink_ok : never_fails W.










End NeverFails.


Lemma endOf_value (fuel : nat) (s : Writable) :
  endOf (S fuel) s = ([Pulled 0], Some (backward_extent s)).
Proof.
  unfold endOf, backward_extent. cbn [rangeSeq2].
  now destruct (Backward s 0%nat) as [[index digit]|].
Qed.

Section SpansExtent.

Context {W : Type} {io : IoWriter W}.

Variable margin : Z -> Z -> string.

Hypothesis sink_ok : never_fails W.







End SpansExtent.

(** ** The entry points that return a string *)

Lemma Builder_never_fails : never_fails Builder.
Proof. intros s w. reflexivity. Qed.

Section StringEntryPoints.

Context {ops : PrinterOps Builder}.

Variable remaining : printer -> nat.

Hypothesis Consume_progress :
  forall posit digit pr,
    CanConsume pr = true ->
    (remaining (Consume posit digit pr) < remaining pr)%nat.

Lemma Sprint_as_Fprint (fuel : nat) (s : Printable) (p : Positions)
    (options : list Option) :
  Sprint fuel s p options =
  (trace (Fprint fuel zero_Builder s p options),
   option_map (fun r => Builder_String (fst r))
     (result (Fprint fuel zero_Builder s p options))).
Proof.
  unfold Sprint, Sprint_builder.
  destruct (Fprint fuel zero_Builder s p options) as [t [r|]]; cbn;
    rewrite ?app_nil_r; reflexivity.
Qed.

Lemma Swrite_as_Fwrite (fuel : nat) (s : Writable) (options : list Option) :
  Swrite fuel s options =
  (trace (Fwrite fuel zero_Builder s options),
   option_map (fun r => Builder_String (fst r))
     (result (Fwrite fuel zero_Builder s options))).
Proof.
  unfold Swrite, Swrite_builder.
  destruct (Fwrite fuel zero_Builder s options) as [t [r|]]; cbn;
    rewrite ?app_nil_r; reflexivity.
Qed.

Lemma Fprint_returns (fuel : nat) (w : Builder) (s : Printable)
    (p : Positions) (options : list Option) :
  (remaining (newPrinter w (Positions_End p)
                (mutateSettings options Fprint_settings)) <= fuel)%nat ->
  exists r, result (Fprint fuel w s p options) = Some r.
Proof.
  intros Hfuel.
  destruct (fromRanges_returns remaining Consume_progress fuel s
              (Positions_All p) _ Hfuel) as [pr Hpr].
  unfold Fprint, Fprint_printer, fromSequenceWithPositions.
  rewrite !result_bind, Hpr. cbn. eauto.
Qed.

Lemma Fwrite_returns (fuel : nat) (w : Builder) (s : Writable)
    (options : list Option) :
  (remaining (newPrinter w (backward_extent s)
                (mutateSettings options Fwrite_settings)) < fuel)%nat ->
  exists r, result (Fwrite fuel w s options) = Some r.
Proof.
  intros Hfuel. destruct fuel as [|fuel]; [lia|].
  destruct (fromIterator_returns remaining Consume_progress (All s) (S fuel)
              (newPrinter w (backward_extent s)
                 (mutateSettings options Fwrite_settings)))
    as (pr & Hpr & _); [lia|].
  unfold Fwrite, Fwrite_printer.
  rewrite !result_bind, endOf_value. cbn [result snd].
  rewrite !result_bind, Hpr. cbn. eauto.
Qed.

(** C8. [Sprint] and [Swrite] run [Fprint] and [Fwrite] on a fresh
    in-memory builder, whose [Write] never fails, and return the text the
    builder holds afterwards: they make the same calls, return exactly
    when the run returns, and the byte count and the error of the run are
    no part of what they return.  With a printer that every [Consume]
    brings closer to its end they do return, given fuel for that many
    rounds (and for the one request of [endOf]). *)
Theorem string_entry_points_swallow_errors :
  never_fails Builder /\
  (forall fuel s p options,
     Sprint fuel s p options =
     (trace (Fprint fuel zero_Builder s p options),
      option_map (fun r => Builder_String (fst r))
        (result (Fprint fuel zero_Builder s p options)))) /\
  (forall fuel s options,
     Swrite fuel s options =
     (trace (Fwrite fuel zero_Builder s options),
      option_map (fun r => Builder_String (fst r))
        (result (Fwrite fuel zero_Builder s options)))) /\
  (forall fuel s p options,
     (remaining (newPrinter zero_Builder (Positions_End p)
                   (mutateSettings options Fprint_settings)) <= fuel)%nat ->
     exists text, result (Sprint fuel s p options) = Some text) /\
  (forall fuel s options,
     (remaining (newPrinter zero_Builder (backward_extent s)
                   (mutateSettings options Fwrite_settings)) < fuel)%nat ->
     exists text, result (Swrite fuel s options) = Some text).
Proof.
  split; [exact Builder_never_fails|].
  split; [exact Sprint_as_Fprint|].
  split; [exact Swrite_as_Fwrite|].
  split.
  - intros fuel s p options Hfuel. rewrite Sprint_as_Fprint.
    destruct (Fprint_returns fuel zero_Builder s p options Hfuel) as [r Hr].
    cbn [result snd]. cbn [result] in Hr. rewrite Hr. cbn. eauto.
  - intros fuel s options Hfuel. rewrite Swrite_as_Fwrite.
    destruct (Fwrite_returns fuel zero_Builder s options Hfuel) as [r Hr].
    cbn [result snd]. cbn [result] in Hr. rewrite Hr. cbn. eauto.
Qed.

End StringEntryPoints.

(** ** The properties at concrete inputs *)


Lemma sqrt2_digits_within : Writable_within (Writable_of_list sqrt2_digits).
Proof.
  intros i posit digit H. cbn in H. unfold Seq2_of_list in H.
  apply nth_error_In in H. vm_compute.
  repeat (destruct H as [H|H]; [injection H as <- <-; reflexivity|]).
  destruct H.
Qed.




(** C2 at a printer whose extent is 0: nothing is requested. *)
Lemma fromIterator_cooperative_witness :
  fromIterator (ops := layout_printer decimal_margin) 5
    (Seq2_of_list sqrt2_digits) (l_newPrinter zero_Builder 0 Fprint_settings)
  = ([Checked false], Some (l_newPrinter zero_Builder 0 Fprint_settings)).
Proof.
  exact (proj1 (fromIterator_cooperative (ops := layout_printer decimal_margin)
                  5 (Seq2_of_list sqrt2_digits)
                  (l_newPrinter zero_Builder 0 Fprint_settings)) eq_refl).
Defined.

(** C4 at the digits of the square root of 2: the extent is 12. *)
Lemma Fwrite_extent_from_backward_witness :
  endOf 1 (Writable_of_list sqrt2_digits) = ([Pulled 0], Some 12) /\
  backward_extent (Writable_of_list sqrt2_digits) = 11 + 1.
Proof.
  destruct (Fwrite_extent_from_backward (ops := layout_printer decimal_margin)
              0 zero_Builder (Writable_of_list sqrt2_digits) [])
    as (H1 & _ & H3 & _).
  split; [exact H1|].
  apply (H3 11 7 eq_refl); vm_compute; [split|]; discriminate.
Defined.

(** C8 at the layout engine, whose [Consume] makes progress. *)
Lemma string_entry_points_swallow_errors_witness :
  (exists text,
     result (Sprint (ops := layout_printer decimal_margin) 12
               (Printable_of_list sqrt2_digits) two_ranges []) = Some text) /\
  (exists text,
     result (Swrite (ops := layout_printer decimal_margin) 13
               (Writable_of_list sqrt2_digits) []) = Some text).
Proof.
  destruct (string_entry_points_swallow_errors
              (ops := layout_printer decimal_margin) remaining_positions
              (l_Consume_progress decimal_margin))
    as (_ & _ & _ & HP & HW).
  split.
  - apply HP. vm_compute. lia.
  - apply HW. vm_compute. lia.
Defined.

(** The text of the two calls of the first witness. *)
Example Sprint_two_ranges :
  result (Sprint (ops := layout_printer decimal_margin) 12
            (Printable_of_list sqrt2_digits) two_ranges
            [ShowCount false; LeadingDecimal false])
  = Some "14142 ..562 37"%string.
Proof. vm_compute. reflexivity. Qed.

Example Swrite_all :
  result (Swrite (ops := layout_printer decimal_margin) 13
            (Writable_of_list sqrt2_digits) [DigitsPerRow 5; ShowCount false])
  = Some ("14142" ++ byte_string 10 ++ "13562" ++ byte_string 10
          ++ "37" ++ byte_string 10)%string.
Proof. vm_compute. reflexivity. Qed.

(** ** The text of a builder is the text of the tokens rendered *)

Lemma string_append_assoc (a b c : string) :
  ((a ++ b) ++ c)%string = (a ++ (b ++ c))%string.
Proof. induction a as [|x a IH]; cbn; [|rewrite IH]; reflexivity. Qed.

Lemma string_append_empty (a : string) : (a ++ EmptyString)%string = a.
Proof. induction a as [|x a IH]; cbn; [|rewrite IH]; reflexivity. Qed.

Lemma text_of_app (a b : list string) :
  text_of (a ++ b) = (text_of a ++ text_of b)%string.
Proof.
  induction a as [|x a IH]; cbn; [reflexivity|].
  now rewrite IH, string_append_assoc.
Qed.

Section EngineInvariant.

Context {W : Type} {io : IoWriter W}.

Variable margin : Z -> Z -> string.

(** A property of the engine that every emission and every advance of the
    cursor keeps. *)
Variable kept : @lprinter W -> Prop.

Hypothesis emit_kept : forall tok pr, kept pr -> kept (emit margin tok pr).

Hypothesis advance_kept : forall pr, kept pr -> kept (advance pr).

Lemma emit_if_kept (b : bool) (tok : Token) (pr : lprinter) :
  kept pr -> kept (emit_if margin b tok pr).
Proof. destruct b; [apply emit_kept|auto]. Qed.

Lemma render_kept (slot : Z -> Token) (pr : lprinter) :
  kept pr -> kept (render margin slot pr).
Proof.
  intros H. unfold render. apply advance_kept.
  repeat first [apply emit_if_kept | apply emit_kept]. exact H.
Qed.

Lemma placeholders_kept (n : nat) :
  forall pr : lprinter, kept pr -> kept (placeholders margin n pr).
Proof.
  induction n as [|n IH]; intros pr H; [exact H|].
  cbn [placeholders]. apply IH. now apply render_kept.
Qed.

Lemma l_Consume_kept (posit digit : Z) (pr : lprinter) :
  kept pr -> kept (l_Consume margin posit digit pr).
Proof.
  intros H. unfold l_Consume. destruct (negb (l_CanConsume pr)); [exact H|].
  apply render_kept. now apply placeholders_kept.
Qed.

Lemma l_Finish_kept (pr : lprinter) :
  kept pr -> kept (l_Finish margin pr).
Proof.
  intros H. unfold l_Finish. apply emit_if_kept. now apply placeholders_kept.
Qed.

Lemma Fprint_printer_kept (fuel : nat) (w : W) (s : Printable)
    (p : Positions) (options : list Option) (pr : lprinter) :
  (forall extent settings, kept (l_newPrinter w extent settings)) ->
  result (Fprint_printer (ops := layout_printer margin) fuel w s p options)
  = Some pr ->
  kept pr.
Proof.
  intros Hw. unfold Fprint_printer, fromSequenceWithPositions.
  rewrite !result_bind.
  set (pr0 := newPrinter (PrinterOps := layout_printer margin) w
                (Positions_End p) (mutateSettings options Fprint_settings)).
  assert (H0 : kept pr0) by apply Hw.
  revert H0. generalize pr0. clear pr0.
  induction (Positions_All p) as [|x rs IH]; intros pr0 H0.
  - cbn. intros [= <-]. now apply l_Finish_kept.
  - rewrite fromRanges_result.
    destruct (result (fromIterator (ops := layout_printer margin) fuel
                        (AllInRange s (Start x) (End x)) pr0))
      as [pr1|] eqn:E1; [|discriminate].
    apply IH.
    eapply (fromIterator_invariant (ops := layout_printer margin) kept);
      [|exact H0|exact E1].
    intros. now apply l_Consume_kept.
Qed.

Lemma Fwrite_printer_kept (fuel : nat) (w : W) (s : Writable)
    (options : list Option) (pr : lprinter) :
  (forall extent settings, kept (l_newPrinter w extent settings)) ->
  result (Fwrite_printer (ops := layout_printer margin) fuel w s options)
  = Some pr ->
  kept pr.
Proof.
  intros Hw. unfold Fwrite_printer. rewrite !result_bind.
  destruct (result (endOf fuel s)) as [extent|]; [|discriminate].
  rewrite result_bind.
  destruct (result (fromIterator (ops := layout_printer margin) fuel (All s) _))
    as [pr1|] eqn:E1; [|discriminate].
  cbn. intros [= <-]. apply l_Finish_kept.
  eapply (fromIterator_invariant (ops := layout_printer margin) kept);
    [| |exact E1].
  - intros. now apply l_Consume_kept.
  - apply Hw.
Qed.

End EngineInvariant.

Section BuilderText.

Variable margin : Z -> Z -> string.

(** The builder holds the text of the tokens rendered. *)
Lemma emit_text (tok : Token) (pr : @lprinter Builder) :
  contents (p_writer pr)
  = text_of (map (token_text margin (p_extent pr)) (p_rendered pr)) ->
  contents (p_writer (emit margin tok pr))
  = text_of (map (token_text margin (p_extent (emit margin tok pr)))
               (p_rendered (emit margin tok pr))).
Proof.
  intros H. unfold emit. destruct (p_err pr); [exact H|].
  cbn. rewrite H, map_app, text_of_app. cbn.
  now rewrite string_append_empty.
Qed.

Lemma advance_text (pr : @lprinter Builder) :
  contents (p_writer pr)
  = text_of (map (token_text margin (p_extent pr)) (p_rendered pr)) ->
  contents (p_writer (advance pr))
  = text_of (map (token_text margin (p_extent (advance pr)))
               (p_rendered (advance pr))).
Proof. intros H. unfold advance. now destruct (p_err pr). Qed.

(** The text [Sprint] and [Swrite] return is the text of the tokens the
    engine rendered, in order. *)
Theorem string_is_rendered_tokens :
  (forall fuel s p options pr,
     result (Fprint_printer (ops := layout_printer margin) fuel zero_Builder
               s p options) = Some pr ->
     result (Sprint (ops := layout_printer margin) fuel s p options)
     = Some (text_of (map (token_text margin (p_extent pr)) (p_rendered pr)))) /\
  (forall fuel s options pr,
     result (Fwrite_printer (ops := layout_printer margin) fuel zero_Builder
               s options) = Some pr ->
     result (Swrite (ops := layout_printer margin) fuel s options)
     = Some (text_of (map (token_text margin (p_extent pr)) (p_rendered pr)))).
Proof.
  split.
  - intros fuel s p options pr H.
    pose proof (Fprint_printer_kept margin _ (emit_text) (advance_text)
                  fuel zero_Builder s p options pr (fun _ _ => eq_refl) H) as Ht.
    unfold Sprint, Sprint_builder, Fprint. rewrite !result_bind, H.
    cbn. now rewrite <- Ht.
  - intros fuel s options pr H.
    pose proof (Fwrite_printer_kept margin _ (emit_text) (advance_text)
                  fuel zero_Builder s options pr (fun _ _ => eq_refl) H) as Ht.
    unfold Swrite, Swrite_builder, Fwrite. rewrite !result_bind, H.
    cbn. now rewrite <- Ht.
Qed.

End BuilderText.

(* ================================================================== *)
(** * Further properties of [print.go] *)

(** ** The run monad *)

Lemma bind_assoc {A B C : Type} (m : Run A) (f : A -> Run B) (g : B -> Run C) :
  bind (bind m f) g = bind m (fun a => bind (f a) g).
Proof.
  destruct m as [t [a|]]; cbn; [|reflexivity].
  destruct (f a) as [t1 [b|]]; cbn; [|reflexivity].
  destruct (g b) as [t2 o]. now rewrite app_assoc.
Qed.

Lemma bind_ret_l {A B : Type} (a : A) (f : A -> Run B) : bind (ret a) f = f a.
Proof. cbn. now destruct (f a). Qed.

Lemma bind_ext {A B : Type} (m : Run A) (f g : A -> Run B) :
  (forall a, f a = g a) -> bind m f = bind m g.
Proof. intros H. destruct m as [t [a|]]; cbn; [now rewrite H|reflexivity]. Qed.

Lemma consumed_pairs_app (t u : list Event) :
  consumed_pairs (t ++ u) = consumed_pairs t ++ consumed_pairs u.
Proof.
  induction t as [|e t IH]; cbn; [reflexivity|].
  destruct e; cbn; now rewrite IH.
Qed.

(** ** What [fromIterator] feeds the printer *)

Section Feeding.

Context {W : Type} {ops : PrinterOps W}.

Lemma fromIterator_loop_feeds (it : Seq2) :
  forall fuel i pr,
    let r := rangeSeq2 fuel it i fromIterator_body pr in
    let l := consumed_pairs (trace r) in
    l = yielded it i (List.length l) /\
    (forall f, result r = Some f -> leaves f = feed l pr) /\
    (pulled (trace r) = seq i (List.length l)
     \/ pulled (trace r) = seq i (S (List.length l))).
Proof.
  induction fuel as [|fuel IH]; intros i pr; cbv zeta.
  - cbn. repeat split; [discriminate|now left].
  - rewrite fromIterator_loop_step.
    destruct (it i) as [[posit digit]|] eqn:Hi.
    + destruct (CanConsume (Consume posit digit pr)) eqn:E.
      * destruct (IH (S i) (Consume posit digit pr)) as (Hl & Hf & Hp).
        cbn [trace result fst snd consumed_pairs pulled List.length yielded].
        rewrite Hi. cbn [trace] in Hl, Hf, Hp. repeat split.
        -- f_equal. exact Hl.
        -- intros f H. cbn [result] in Hf. rewrite (Hf f H). reflexivity.
        -- destruct Hp as [Hp|Hp]; [left|right]; cbn [seq]; now rewrite Hp.
      * cbn [trace result fst snd consumed_pairs pulled List.length yielded].
        rewrite Hi. repeat split.
        -- intros f [= <-]. reflexivity.
        -- now left.
    + cbn. repeat split; [|now right]. intros f [= <-]. reflexivity.
Qed.

Lemma fromIterator_loop_exhausts (it : Seq2) :
  forall fuel i pr f,
    result (rangeSeq2 fuel it i fromIterator_body pr) = Some f ->
    CanConsume (leaves f) = true ->
    it (i + List.length
              (consumed_pairs
                 (trace (rangeSeq2 fuel it i fromIterator_body pr))))%nat
    = None.
Proof.
  induction fuel as [|fuel IH]; intros i pr f; [discriminate|].
  rewrite fromIterator_loop_step.
  destruct (it i) as [[posit digit]|] eqn:Hi.
  - destruct (CanConsume (Consume posit digit pr)) eqn:E.
    + cbn [trace result fst snd consumed_pairs List.length]. intros H Hc.
      rewrite Nat.add_succ_r. apply (IH (S i) _ f H Hc).
    + cbn [result snd]. intros [= <-]. cbn. congruence.
  - cbn. intros _ _. now rewrite Nat.add_0_r.
Qed.

Lemma fromIterator_loop_of_list (l2 : list (Z * Z)) :
  forall (l1 : list (Z * Z)) (fuel : nat) (pr : printer),
    (List.length l2 < fuel)%nat ->
    option_map leaves
      (result (rangeSeq2 fuel (Seq2_of_list (l1 ++ l2)) (List.length l1)
                 fromIterator_body pr))
    = Some (drive l2 pr).
Proof.
  induction l2 as [|[posit digit] l2 IH]; intros l1 fuel pr Hfuel;
    (destruct fuel as [|fuel]; [cbn in Hfuel; lia|]);
    rewrite fromIterator_loop_step; unfold Seq2_of_list.
  - rewrite app_nil_r.
    now rewrite (proj2 (nth_error_None l1 (List.length l1)) (le_n _)).
  - rewrite nth_error_app2 by lia. rewrite Nat.sub_diag. cbn [nth_error drive].
    destruct (CanConsume (Consume posit digit pr)); [|reflexivity].
    cbn [result snd].
    replace (l1 ++ (posit, digit) :: l2) with ((l1 ++ [(posit, digit)]) ++ l2)
      by now rewrite <- app_assoc.
    replace (S (List.length l1)) with (List.length (l1 ++ [(posit, digit)]))
      by (rewrite length_app; cbn; lia).
    apply IH. cbn in Hfuel. lia.
Qed.

Lemma fromIterator_of_list (l : list (Z * Z)) (fuel : nat) (pr : printer) :
  (List.length l < fuel)%nat ->
  result (fromIterator fuel (Seq2_of_list l) pr)
  = Some (if CanConsume pr then drive l pr else pr).
Proof.
  intros Hfuel. destruct (CanConsume pr) eqn:E.
  - rewrite (fromIterator_started _ _ _ E). cbn [result snd].
    exact (fromIterator_loop_of_list l [] fuel pr Hfuel).
  - now rewrite (fromIterator_stopped _ _ _ E).
Qed.

(** X1. [fromIterator] hands the pairs of the iterator to [Consume] in the
    order they are yielded, from the first on, without skipping or
    repeating one: the pairs it consumed are the first ones the iterator
    yields, it requested exactly those or one more, and the printer it
    returns is the one these calls of [Consume] leave. *)
Theorem fromIterator_feeds_in_order (fuel : nat) (it : Seq2) (pr : printer) :
  let t := trace (fromIterator fuel it pr) in
  let l := consumed_pairs t in
  l = yielded it 0 (List.length l) /\
  (forall pr', result (fromIterator fuel it pr) = Some pr' -> pr' = feed l pr) /\
  (pulled t = seq 0 (List.length l) \/ pulled t = seq 0 (S (List.length l))).
Proof.
  cbv zeta. destruct (CanConsume pr) eqn:E.
  - rewrite (fromIterator_started _ _ _ E).
    destruct (fromIterator_loop_feeds it fuel 0%nat pr) as (Hl & Hf & Hp).
    cbn [trace result fst snd consumed_pairs pulled].
    cbn [trace result] in Hl, Hf, Hp. repeat split; [exact Hl| |exact Hp].
    destruct (result (rangeSeq2 fuel it 0 fromIterator_body pr)) as [f|];
      cbn; intros pr' H; [|discriminate].
    injection H as <-. now apply Hf.
  - rewrite (fromIterator_stopped _ _ _ E). cbn.
    repeat split; [|now left]. now intros pr' [= <-].
Qed.

(** X2. [fromIterator] does not give up early: when it returns a printer
    that can still consume, the iterator has ended, right after the pairs
    that were consumed. *)
Theorem fromIterator_stops_only_when_done (fuel : nat) (it : Seq2)
    (pr pr' : printer) :
  result (fromIterator fuel it pr) = Some pr' ->
  CanConsume pr' = true ->
  it (List.length (consumed_pairs (trace (fromIterator fuel it pr)))) = None.
Proof.
  destruct (CanConsume pr) eqn:E.
  - rewrite (fromIterator_started _ _ _ E).
    cbn [trace result fst snd consumed_pairs].
    destruct (result (rangeSeq2 fuel it 0 fromIterator_body pr)) as [f|] eqn:Hf;
      cbn; intros H Hc; [|discriminate].
    injection H as <-.
    exact (fromIterator_loop_exhausts it fuel 0%nat pr f Hf Hc).
  - rewrite (fromIterator_stopped _ _ _ E). intros [= <-]. congruence.
Qed.

(** X3. On a source of finitely many pairs, [fromIterator] and [Fwrite]
    return for every printer, given fuel for one round more than there are
    pairs: [fromIterator] leaves the printer that [Consume] of the pairs
    in order leaves, up to the first after which [CanConsume()] is false;
    [Fwrite] returns what that printer holds after [Finish]. *)
Theorem finite_source_is_driven (l : list (Z * Z)) (fuel : nat) (w : W)
    (s : Writable) (options : list Option) (pr : printer) :
  (List.length l < fuel)%nat ->
  All s = Seq2_of_list l ->
  result (fromIterator fuel (Seq2_of_list l) pr)
  = Some (if CanConsume pr then drive l pr else pr) /\
  result (Fwrite fuel w s options)
  = Some (outcome
            (Finish
               (let pr0 := newPrinter w (backward_extent s)
                             (mutateSettings options Fwrite_settings) in
                if CanConsume pr0 then drive l pr0 else pr0))).
Proof.
  intros Hfuel Hall. split; [now apply fromIterator_of_list|].
  destruct fuel as [|fuel]; [lia|].
  unfold Fwrite, Fwrite_printer.
  rewrite !result_bind, endOf_value. cbn [result snd].
  rewrite !result_bind, Hall, (fromIterator_of_list l (S fuel) _ Hfuel).
  reflexivity.
Qed.

End Feeding.

(** ** Ranges one after the other, and sources without digits *)

Section RangesCompose.

Context {W : Type} {ops : PrinterOps W}.

Lemma fromRanges_app (fuel : nat) (s : Printable)
    (rs1 rs2 : list PositionRange) :
  forall pr,
    fromRanges fuel s (rs1 ++ rs2) pr
    = (pr' <- fromRanges fuel s rs1 pr ;; fromRanges fuel s rs2 pr').
Proof.
  induction rs1 as [|r rs1 IH]; intros pr.
  - cbn [app fromRanges]. now rewrite bind_ret_l.
  - cbn [app fromRanges]. rewrite !bind_assoc.
    apply bind_ext. intros _. cbv beta.
    apply bind_ext. intros pr1. apply IH.
Qed.

(** X4. Driving the printer over the ranges of two position sets, one set
    after the other, is driving it over the ranges of both in that order:
    the same calls are made and the same printer is left. *)
Theorem fromSequenceWithPositions_appends (fuel : nat) (s : Printable)
    (p1 p2 : Positions) (pr : printer) :
  fromSequenceWithPositions fuel s
    {| ranges := Positions_All p1 ++ Positions_All p2 |} pr
  = (pr' <- fromSequenceWithPositions fuel s p1 pr ;;
     fromSequenceWithPositions fuel s p2 pr').
Proof. unfold fromSequenceWithPositions. apply fromRanges_app. Qed.

Lemma fromIterator_nothing_yielded (fuel : nat) (it : Seq2) (pr : printer) :
  it 0%nat = None ->
  result (fromIterator (S fuel) it pr) = Some pr.
Proof.
  intros H. destruct (CanConsume pr) eqn:E.
  - rewrite (fromIterator_started _ _ _ E), fromIterator_loop_step, H.
    reflexivity.
  - now rewrite (fromIterator_stopped _ _ _ E).
Qed.

Lemma fromRanges_nothing_yielded (fuel : nat) (s : Printable)
    (rs : list PositionRange) (pr : printer) :
  (forall r, In r rs -> AllInRange s (Start r) (End r) 0%nat = None) ->
  result (fromRanges (S fuel) s rs pr) = Some pr.
Proof.
  induction rs as [|r rs IH]; intros H; [reflexivity|].
  rewrite fromRanges_result, fromIterator_nothing_yielded
    by (apply H; now left).
  apply IH. intros r' Hr'. apply H. now right.
Qed.

(** X5. When the source yields no digit in any of the ranges, [Fprint]
    never calls [Consume] and returns what [Finish] makes of the printer as
    [newPrinter] made it: every position is left to [Finish]. *)
Theorem Fprint_without_digits (fuel : nat) (w : W) (s : Printable)
    (p : Positions) (options : list Option) :
  (forall r, In r (Positions_All p) ->
             AllInRange s (Start r) (End r) 0%nat = None) ->
  result (Fprint (S fuel) w s p options)
  = Some (outcome
            (Finish (newPrinter w (Positions_End p)
                       (mutateSettings options Fprint_settings)))) /\
  consumed_pairs (trace (Fprint (S fuel) w s p options)) = [].
Proof.
  intros H. split.
  - unfold Fprint, Fprint_printer, fromSequenceWithPositions.
    rewrite !result_bind, (fromRanges_nothing_yielded _ _ _ _ H). reflexivity.
  - rewrite Fprint_log.
    generalize (newPrinter w (Positions_End p)
                  (mutateSettings options Fprint_settings)).
    revert H. induction (Positions_All p) as [|r rs IH]; intros H pr;
      [reflexivity|].
    rewrite fromRanges_log. cbn [consumed_pairs].
    rewrite consumed_pairs_app,
      (fromIterator_nothing_yielded fuel _ pr (H r (or_introl eq_refl))).
    rewrite IH by (intros r' Hr'; apply H; now right).
    rewrite app_nil_r.
    destruct (CanConsume pr) eqn:E.
    + rewrite (fromIterator_started _ _ _ E), fromIterator_loop_step,
        (H r (or_introl eq_refl)). reflexivity.
    + now rewrite (fromIterator_stopped _ _ _ E).
Qed.

(** The log of [Fwrite]: the request of [endOf], then the log of
    [fromIterator]. *)
Lemma Fwrite_log (fuel : nat) (w : W) (s : Writable) (options : list Option) :
  trace (Fwrite fuel w s options)
  = match fuel with
    | O => []
    | S _ =>
        Pulled 0
          :: trace (fromIterator fuel (All s)
                      (newPrinter w (backward_extent s)
                         (mutateSettings options Fwrite_settings)))
    end.
Proof.
  destruct fuel as [|fuel]; [reflexivity|].
  unfold Fwrite, Fwrite_printer. rewrite endOf_value. cbn [bind].
  destruct (fromIterator (S fuel) (All s)
              (newPrinter w (backward_extent s)
                 (mutateSettings options Fwrite_settings))) as [t [pr|]];
    cbn; now rewrite ?app_nil_r.
Qed.

(** X6. [Fwrite] drives the printer cooperatively and touches the backward
    traversal once: its log starts with the one request of [endOf]; every
    pair goes to [Consume] on a printer that can consume, with a check
    right after; nothing is requested or consumed once [CanConsume()] has
    returned false; and [AllInRange] is never called. *)
Theorem Fwrite_cooperative (fuel : nat) (w : W) (s : Writable)
    (options : list Option) :
  let t := trace (Fwrite (S fuel) w s options) in
  (exists t', t = Pulled 0 :: Checked (CanConsume
                                         (newPrinter w (backward_extent s)
                                            (mutateSettings options
                                               Fwrite_settings))) :: t') /\
  forallb consumed_while_can t = true /\
  rechecked t = true /\
  after_stop t = [] /\
  queries t = [].
Proof.
  cbv zeta. rewrite Fwrite_log.
  set (pr := newPrinter w (backward_extent s)
               (mutateSettings options Fwrite_settings)).
  split; [|split; [|split; [|split]]].
  - destruct (fromIterator_log (S fuel) (All s) pr) as (t' & Ht & _).
    exists t'. now rewrite Ht.
  - cbn [forallb consumed_while_can andb]. apply fromIterator_consumed.
  - cbn [rechecked]. apply fromIterator_rechecked.
  - cbn [after_stop]. apply fromIterator_after_stop.
  - cbn [queries]. apply fromIterator_queries.
Qed.

(** Termination on any destination. *)
Variable remaining : printer -> nat.

Hypothesis Consume_progress :
  forall posit digit pr,
    CanConsume pr = true ->
    (remaining (Consume posit digit pr) < remaining pr)%nat.

(** X7. With a printer that every [Consume] brings closer to the point
    where it cannot consume, [Fprint] and [Fwrite] return whatever the
    source yields, also when its iterators never end: fuel for as many
    rounds as the new printer has remaining is enough. *)
Theorem entry_points_return (fuel : nat) (w : W) (options : list Option) :
  (forall (s : Printable) (p : Positions),
     (remaining (newPrinter w (Positions_End p)
                   (mutateSettings options Fprint_settings)) <= fuel)%nat ->
     exists r, result (Fprint fuel w s p options) = Some r) /\
  (forall s : Writable,
     (remaining (newPrinter w (backward_extent s)
                   (mutateSettings options Fwrite_settings)) < fuel)%nat ->
     exists r, result (Fwrite fuel w s options) = Some r).
Proof.
  split.
  - intros s p Hfuel.
    destruct (fromRanges_returns remaining Consume_progress fuel s
                (Positions_All p) _ Hfuel) as [pr Hpr].
    unfold Fprint, Fprint_printer, fromSequenceWithPositions.
    rewrite !result_bind, Hpr. cbn. eauto.
  - intros s Hfuel. destruct fuel as [|fuel']; [lia|].
    destruct (fromIterator_returns remaining Consume_progress (All s) (S fuel')
                (newPrinter w (backward_extent s)
                   (mutateSettings options Fwrite_settings)))
      as (pr & Hpr & _); [lia|].
    unfold Fwrite, Fwrite_printer.
    rewrite !result_bind, endOf_value. cbn [result snd].
    rewrite !result_bind, Hpr. cbn. eauto.
Qed.

End RangesCompose.

(** ** Options that end in the same settings *)

Lemma settings_ext (s1 s2 : printerSettings) :
  (forall f, get f s1 = get f s2) -> s1 = s2.
Proof.
  destruct s1, s2. intros H.
  pose proof (H FDigitsPerRow) as H1. pose proof (H FDigitsPerColumn) as H2.
  pose proof (H FShowCount) as H3. pose proof (H FMissingDigit) as H4.
  pose proof (H FTrailingLineFeed) as H5. pose proof (H FLeadingDecimal) as H6.
  pose proof (H FBufferSize) as H7. cbn in *. congruence.
Qed.

Lemma same_last_same_settings (calls1 calls2 : list OptionCall)
    (seed : printerSettings) :
  (forall f, option_map assigned (last_for f calls1)
             = option_map assigned (last_for f calls2)) ->
  mutateSettings (map build calls1) seed
  = mutateSettings (map build calls2) seed.
Proof.
  intros H. apply settings_ext. intros f. rewrite !mutateSettings_get.
  specialize (H f).
  destruct (last_for f calls1), (last_for f calls2); cbn in H; congruence.
Qed.

Section SameSettings.

Context {W : Type} {ops : PrinterOps W}.

(** X8. Only the last option given for each field counts, in whatever
    order the fields come: two lists of options in which every field is
    last assigned the same value (or is assigned in neither) give the
    same settings from any seed, and [Fprint] and [Fwrite] do the same
    with both. *)
Theorem options_with_same_last_agree (calls1 calls2 : list OptionCall) :
  (forall f, option_map assigned (last_for f calls1)
             = option_map assigned (last_for f calls2)) ->
  (forall seed,
     mutateSettings (map build calls1) seed
     = mutateSettings (map build calls2) seed) /\
  (forall fuel (w : W) s p,
     Fprint fuel w s p (map build calls1)
     = Fprint fuel w s p (map build calls2)) /\
  (forall fuel (w : W) s,
     Fwrite fuel w s (map build calls1) = Fwrite fuel w s (map build calls2)).
Proof.
  intros H. split; [|split].
  - intros seed. now apply same_last_same_settings.
  - intros fuel w s p. unfold Fprint, Fprint_printer.
    now rewrite (same_last_same_settings calls1 calls2 Fprint_settings H).
  - intros fuel w s. unfold Fwrite, Fwrite_printer.
    now rewrite (same_last_same_settings calls1 calls2 Fwrite_settings H).
Qed.

End SameSettings.

(** X9. The settings [Fprint] and [Fwrite] start from differ in the
    trailing line feed and the leading decimal alone: a list of options
    that assigns both gives [Fprint] and [Fwrite] the same settings, and
    any list gives them the same value of every other field. *)
Theorem entry_points_differ_in_two_defaults (calls : list OptionCall) :
  (forall f,
     f <> FTrailingLineFeed -> f <> FLeadingDecimal ->
     get f (mutateSettings (map build calls) Fprint_settings)
     = get f (mutateSettings (map build calls) Fwrite_settings)) /\
  (last_for FTrailingLineFeed calls <> None ->
   last_for FLeadingDecimal calls <> None ->
   mutateSettings (map build calls) Fprint_settings
   = mutateSettings (map build calls) Fwrite_settings).
Proof.
  assert (A : forall f,
             (f = FTrailingLineFeed -> last_for f calls <> None) ->
             (f = FLeadingDecimal -> last_for f calls <> None) ->
             get f (mutateSettings (map build calls) Fprint_settings)
             = get f (mutateSettings (map build calls) Fwrite_settings)).
  { intros f H1 H2. rewrite !mutateSettings_get.
    destruct (last_for f calls); [reflexivity|].
    destruct f; try reflexivity; [now elim H1|now elim H2]. }
  split.
  - intros f H1 H2. apply A; intros ->; contradiction.
  - intros H1 H2. apply settings_ext. intros f. apply A; now intros ->.
Qed.

(** ** The extent [endOf] returns *)

Lemma GoInt_wrap_is_int (z : Z) : GoInt.in_range (GoInt.wrap z).
Proof.
  unfold GoInt.in_range, GoInt.wrap, GoInt.min_int, GoInt.max_int.
  pose proof (Z.mod_pos_bound (z + 2 ^ 63) (2 ^ 64) ltac:(lia)). lia.
Qed.

Lemma GoInt_wrap_congruent (z : Z) : (GoInt.wrap z - z) mod 2 ^ 64 = 0.
Proof.
  unfold GoInt.wrap.
  replace ((z + 2 ^ 63) mod 2 ^ 64 - 2 ^ 63 - z)
    with ((z + 2 ^ 63) mod 2 ^ 64 - (z + 2 ^ 63)) by lia.
  rewrite Zminus_mod, Z.mod_mod, Z.sub_diag by lia. reflexivity.
Qed.

(** X10. Whatever the backward traversal yields first, the extent [endOf]
    returns is an [int]: it is 0 for an empty traversal and otherwise one
    more than the first position up to a multiple of 2^64; for a first
    position that is the largest [int] it is the smallest [int], so the
    extent is then negative rather than one past the position. *)
Theorem endOf_extent_is_int (fuel : nat) (s : Writable) (extent : Z) :
  result (endOf fuel s) = Some extent ->
  GoInt.in_range extent /\
  (Backward s 0%nat = None -> extent = 0) /\
  (forall index digit,
     Backward s 0%nat = Some (index, digit) ->
     (extent - (index + 1)) mod 2 ^ 64 = 0 /\
     (index = GoInt.max_int -> extent = GoInt.min_int) /\
     (GoInt.min_int <= index < GoInt.max_int -> extent = index + 1)).
Proof.
  destruct fuel as [|fuel]; [discriminate|].
  rewrite endOf_value. cbn [result snd]. intros [= <-].
  unfold backward_extent. destruct (Backward s 0%nat) as [[i d]|].
  - split; [apply GoInt_wrap_is_int|]. split; [discriminate|].
    intros index digit [= <- <-]. split; [apply GoInt_wrap_congruent|]. split.
    + intros ->. reflexivity.
    + intros H. apply GoInt_add_no_overflow.
      unfold GoInt.in_range, GoInt.min_int, GoInt.max_int in *. lia.
  - split; [unfold GoInt.in_range, GoInt.min_int, GoInt.max_int; lia|].
    split; [reflexivity|discriminate].
Qed.

(** ** The further properties at concrete inputs *)

(** X2 at three digits and an extent of twelve: the printer can still
    consume, and the iterator has no fourth pair. *)
Lemma fromIterator_stops_only_when_done_witness :
  Seq2_of_list [(0, 1); (1, 4); (2, 1)]
    (List.length
       (consumed_pairs
          (trace (fromIterator (ops := layout_printer decimal_margin) 5
                    (Seq2_of_list [(0, 1); (1, 4); (2, 1)])
                    (l_newPrinter zero_Builder 12 Fwrite_settings)))))
  = None.
Proof.
  eapply (fromIterator_stops_only_when_done
            (ops := layout_printer decimal_margin)).
  - vm_compute. reflexivity.
  - vm_compute. reflexivity.
Defined.

(** X3 at the twelve digits of the square root of 2. *)
Lemma finite_source_is_driven_witness :
  result (Fwrite (ops := layout_printer decimal_margin) 13 zero_Builder
            (Writable_of_list sqrt2_digits) [])
  = Some (outcome (ops := layout_printer decimal_margin)
            (Finish
               (let pr0 :=
                  newPrinter zero_Builder
                    (backward_extent (Writable_of_list sqrt2_digits))
                    (mutateSettings [] Fwrite_settings) in
                if CanConsume pr0 then drive sqrt2_digits pr0 else pr0))).
Proof.
  assert (H : (List.length sqrt2_digits < 13)%nat) by (vm_compute; lia).
  exact (proj2 (finite_source_is_driven
                  (ops := layout_printer decimal_margin) sqrt2_digits 13
                  zero_Builder (Writable_of_list sqrt2_digits) []
                  (l_newPrinter zero_Builder 12 Fwrite_settings) H eq_refl)).
Defined.

(** X5 at a source that knows no digit. *)
Lemma Fprint_without_digits_witness :
  result (Fprint (ops := layout_printer decimal_margin) 1 zero_Builder
            (Printable_of_list []) two_ranges [])
  = Some (outcome (ops := layout_printer decimal_margin)
            (Finish (newPrinter zero_Builder (Positions_End two_ranges)
                       (mutateSettings [] Fprint_settings)))).
Proof.
  assert (H : forall r, In r (Positions_All two_ranges) ->
                        AllInRange (Printable_of_list []) (Start r) (End r) 0%nat
                        = None) by (intros r _; reflexivity).
  exact (proj1 (Fprint_without_digits (ops := layout_printer decimal_margin)
                  0 zero_Builder (Printable_of_list []) two_ranges [] H)).
Defined.

(** X7 at the layout engine and two sources that never end. *)
Lemma entry_points_return_witness :
  (exists r,
     result (Fprint (ops := layout_printer decimal_margin) 12 zero_Builder
               endless_ones two_ranges []) = Some r) /\
  (exists r,
     result (Fwrite (ops := layout_printer decimal_margin) 6 zero_Builder
               endless_forward []) = Some r).
Proof.
  split.
  - refine (proj1 (entry_points_return (ops := layout_printer decimal_margin)
                     remaining_positions (l_Consume_progress decimal_margin)
                     12 zero_Builder []) endless_ones two_ranges _).
    vm_compute. lia.
  - refine (proj2 (entry_points_return (ops := layout_printer decimal_margin)
                     remaining_positions (l_Consume_progress decimal_margin)
                     6 zero_Builder []) endless_forward _).
    vm_compute. lia.
Defined.

(** X8 at an option that is overridden and two that are swapped. *)
Lemma options_with_same_last_agree_witness :
  mutateSettings
    (map build [CallDigitsPerRow 10; CallShowCount false; CallDigitsPerRow 20])
    Fprint_settings
  = mutateSettings (map build [CallDigitsPerRow 20; CallShowCount false])
      Fprint_settings.
Proof.
  refine (proj1 (options_with_same_last_agree
                   (ops := layout_printer (W := Builder) decimal_margin)
                   [CallDigitsPerRow 10; CallShowCount false; CallDigitsPerRow 20]
                   [CallDigitsPerRow 20; CallShowCount false] _)
            Fprint_settings).
  intros f. destruct f; reflexivity.
Defined.

(** X10 at a backward traversal that never ends. *)
Lemma endOf_extent_is_int_witness :
  GoInt.in_range 101 /\ (101 - (100 + 1)) mod 2 ^ 64 = 0.
Proof.
  destruct (endOf_extent_is_int 1 endless_backward 101 eq_refl)
    as (H1 & _ & H3).
  split; [exact H1|]. exact (proj1 (H3 100 0 eq_refl)).
Defined.

(** ** [Fprint] on a source of finitely many digits *)

Section FiniteRanges.

Context {W : Type} {ops : PrinterOps W}.

Lemma fromRanges_of_lists (fuel : nat) (s : Printable)
    (digits : PositionRange -> list (Z * Z)) (rs : list PositionRange) :
  (forall r, In r rs ->
             AllInRange s (Start r) (End r) = Seq2_of_list (digits r)
             /\ (List.length (digits r) < fuel)%nat) ->
  forall pr,
    result (fromRanges fuel s rs pr)
    = Some (fold_left
              (fun pr r => if CanConsume pr then drive (digits r) pr else pr)
              rs pr).
Proof.
  induction rs as [|r rs IH]; intros H pr; [reflexivity|].
  destruct (H r (or_introl eq_refl)) as [Hr Hlen].
  rewrite fromRanges_result, Hr, (fromIterator_of_list _ _ _ Hlen).
  cbn [fold_left]. apply IH. intros r' Hr'. apply H. now right.
Qed.

(** X11. On a source that yields finitely many pairs for each range of the
    set, [Fprint] returns for every printer, given fuel for one round more
    than the longest range has pairs: the ranges are driven one after the
    other, each from the printer the one before left, each up to the first
    pair after which [CanConsume()] is false, and the result is what the
    last printer holds after [Finish]. *)
Theorem Fprint_on_finite_ranges (fuel : nat) (w : W) (s : Printable)
    (p : Positions) (options : list Option)
    (digits : PositionRange -> list (Z * Z)) :
  (forall r, In r (Positions_All p) ->
             AllInRange s (Start r) (End r) = Seq2_of_list (digits r)
             /\ (List.length (digits r) < fuel)%nat) ->
  result (Fprint fuel w s p options)
  = Some (outcome
            (Finish
               (fold_left
                  (fun pr r =>
                     if CanConsume pr then drive (digits r) pr else pr)
                  (Positions_All p)
                  (newPrinter w (Positions_End p)
                     (mutateSettings options Fprint_settings))))).
Proof.
  intros H. unfold Fprint, Fprint_printer, fromSequenceWithPositions.
  rewrite !result_bind, (fromRanges_of_lists fuel s digits _ H). reflexivity.
Qed.

End FiniteRanges.

(** X11 at the digits of the square root of 2 and two ranges of five. *)
Lemma Fprint_on_finite_ranges_witness :
  result (Fprint (ops := layout_printer decimal_margin) 6 zero_Builder
            (Printable_of_list sqrt2_digits) two_ranges [])
  = Some (outcome (ops := layout_printer decimal_margin)
            (Finish
               (fold_left
                  (fun pr r =>
                     if CanConsume pr
                     then drive (digits_in sqrt2_digits r) pr
                     else pr)
                  (Positions_All two_ranges)
                  (newPrinter zero_Builder (Positions_End two_ranges)
                     (mutateSettings [] Fprint_settings))))).
Proof.
  assert (H : forall r, In r (Positions_All two_ranges) ->
                AllInRange (Printable_of_list sqrt2_digits) (Start r) (End r)
                = Seq2_of_list (digits_in sqrt2_digits r)
                /\ (List.length (digits_in sqrt2_digits r) < 6)%nat).
  { intros r [<-|[<-|[]]]; (split; [reflexivity|vm_compute; lia]). }
  exact (Fprint_on_finite_ranges (ops := layout_printer decimal_margin) 6
           zero_Builder (Printable_of_list sqrt2_digits) two_ranges []
           (digits_in sqrt2_digits) H).
Defined.

(** ** [Fprint] drives the printer from every range *)

Section RangesDriven.

Context {W : Type} {ops : PrinterOps W}.

Lemma feed_app (l1 l2 : list (Z * Z)) (pr : printer) :
  feed (l1 ++ l2) pr = feed l2 (feed l1 pr).
Proof. apply fold_left_app. Qed.

(** What one call of [fromIterator] consumed and left. *)
Lemma fromIterator_fed (fuel : nat) (it : Seq2) (pr : printer) :
  let run := fromIterator fuel it pr in
  let l := consumed_pairs (trace run) in
  l = yielded it 0 (List.length l) /\
  (pulled (trace run) = seq 0 (List.length l)
   \/ pulled (trace run) = seq 0 (S (List.length l))) /\
  (forall pr', result run = Some pr' ->
               pr' = feed l pr /\
               (CanConsume pr' = true -> it (List.length l) = None)).
Proof.
  cbv zeta. destruct (CanConsume pr) eqn:E.
  - rewrite (fromIterator_started _ _ _ E).
    destruct (fromIterator_loop_feeds it fuel 0%nat pr) as (Hl & Hf & Hp).
    pose proof (fromIterator_loop_exhausts it fuel 0%nat pr) as Hx.
    cbn [trace result fst snd consumed_pairs pulled].
    cbn [trace result] in Hl, Hf, Hp, Hx.
    split; [exact Hl|]. split; [exact Hp|].
    destruct (result (rangeSeq2 fuel it 0 fromIterator_body pr)) as [f|] eqn:Hres;
      cbn; intros pr' H; [|discriminate].
    injection H as <-. split; [now apply Hf|]. intros Hc.
    exact (Hx f eq_refl Hc).
  - rewrite (fromIterator_stopped _ _ _ E). cbn.
    split; [reflexivity|]. split; [now left|].
    intros pr' [= <-]. split; [reflexivity|congruence].
Qed.

Lemma fromRanges_fed (fuel : nat) (s : Printable) (rs : list PositionRange) :
  forall pr pr',
    result (fromRanges fuel s rs pr) = Some pr' ->
    pr' = feed (consumed_pairs (trace (fromRanges fuel s rs pr))) pr.
Proof.
  induction rs as [|r rs IH]; intros pr pr'.
  - now intros [= <-].
  - rewrite fromRanges_result, fromRanges_log.
    cbn [consumed_pairs]. rewrite consumed_pairs_app, feed_app.
    destruct (fromIterator_fed fuel (AllInRange s (Start r) (End r)) pr)
      as (_ & _ & Hf).
    cbv zeta in Hf.
    destruct (result (fromIterator fuel (AllInRange s (Start r) (End r)) pr))
      as [pr1|]; [|discriminate].
    destruct (Hf pr1 eq_refl) as [<- _]. apply IH.
Qed.

Lemma fromRanges_queries_prefix (fuel : nat) (s : Printable)
    (rs : list PositionRange) :
  forall pr,
    exists k, queries (trace (fromRanges fuel s rs pr)) = firstn k rs.
Proof.
  induction rs as [|r rs IH]; intros pr; [now exists 0%nat|].
  rewrite fromRanges_log. cbn [queries].
  rewrite queries_app, fromIterator_queries. cbn [app].
  destruct (result (fromIterator fuel (AllInRange s (Start r) (End r)) pr))
    as [pr1|].
  - destruct (IH pr1) as [k Hk]. exists (S k). cbn [firstn]. rewrite Hk.
    now destruct r.
  - exists 1%nat. cbn. now destruct r.
Qed.

Lemma no_stop_existsb (t : list Event) :
  forallb (fun e => negb (is_stop e)) t = true -> existsb is_stop t = false.
Proof.
  induction t as [|e t IH]; cbn; [reflexivity|].
  intros H. apply andb_prop in H as [He Ht].
  rewrite (IH Ht). now destruct (is_stop e).
Qed.

(** Once [CanConsume()] has returned false, the loop over the ranges
    still runs to its end. *)
Lemma fromRanges_stop_returns (fuel : nat) (s : Printable)
    (rs : list PositionRange) :
  forall pr,
    existsb is_stop (trace (fromRanges fuel s rs pr)) = true ->
    queries (trace (fromRanges fuel s rs pr)) = rs /\
    exists pr', result (fromRanges fuel s rs pr) = Some pr'
                /\ CanConsume pr' = false.
Proof.
  induction rs as [|r rs IH]; intros pr; [discriminate|].
  rewrite fromRanges_log, fromRanges_result.
  cbn [existsb is_stop orb queries].
  rewrite existsb_app, queries_app, fromIterator_queries. cbn [app].
  destruct (fromIterator_ends fuel (AllInRange s (Start r) (End r)) pr)
    as [(t0 & pr1 & Ht & Hn & Hr & Hc)|Hn].
  - intros _. rewrite Hr, (fromRanges_stopped _ _ _ _ Hc).
    cbn [trace result fst snd]. rewrite idle_log_queries.
    split; [now destruct r|]. now exists pr1.
  - rewrite (no_stop_existsb _ Hn). cbn [orb].
    destruct (result (fromIterator fuel (AllInRange s (Start r) (End r)) pr))
      as [pr1|]; [|discriminate].
    intros H. destruct (IH pr1 H) as (Hq & pr' & Hr' & Hc').
    rewrite Hq. split; [now destruct r|]. now exists pr'.
Qed.

(** The log of the loop over the ranges, cut at one of them. *)
Lemma fromRanges_split (fuel : nat) (s : Printable)
    (rs1 rs2 : list PositionRange) (r : PositionRange) (pr pr1 : printer) :
  result (fromRanges fuel s rs1 pr) = Some pr1 ->
  trace (fromRanges fuel s (rs1 ++ r :: rs2) pr)
  = trace (fromRanges fuel s rs1 pr)
    ++ Queried (Start r) (End r)
       :: trace (fromIterator fuel (AllInRange s (Start r) (End r)) pr1)
       ++ match result (fromIterator fuel (AllInRange s (Start r) (End r)) pr1)
          with
          | Some pr2 => trace (fromRanges fuel s rs2 pr2)
          | None => []
          end.
Proof.
  intros H. rewrite fromRanges_app, trace_bind, H. now rewrite fromRanges_log.
Qed.

Lemma Fprint_result (fuel : nat) (w : W) (s : Printable) (p : Positions)
    (options : list Option) :
  result (Fprint fuel w s p options)
  = option_map (fun pr => outcome (Finish pr))
      (result (fromRanges fuel s (Positions_All p)
                 (newPrinter w (Positions_End p)
                    (mutateSettings options Fprint_settings)))).
Proof.
  unfold Fprint, Fprint_printer, fromSequenceWithPositions.
  rewrite !result_bind.
  now destruct (result (fromRanges fuel s (Positions_All p) _)).
Qed.

(** C3 (amended). [Fprint] calls [AllInRange] for the ranges of the
    position set in order and drives the printer from each query.

    Driving: for every range of the set, the iterator its query returned
    is handed to [fromIterator] with the printer the ranges before it
    left; the pairs consumed are the first pairs that iterator yields, in
    order, none skipped; the printer left is the one those calls of
    [Consume] leave; and if that printer can still consume, the iterator
    has ended, so all its pairs were consumed.  [Fprint] returns what
    [Finish] makes of the new printer after all the calls of [Consume] of
    the log, in order.

    Stopping: pairs are consumed only while [CanConsume()] is true, with a
    check after each one, and once [CanConsume()] has returned false no
    further pair is requested or consumed.

    Queries: the ranges queried are always the first ranges of the set, in
    order, and all of them when [Fprint] returns.  Once [CanConsume()]
    has returned false, [Fprint] does return and every range of the set
    has been queried, the ranges after the stop included; on a printer
    that cannot consume from the start the log is that of the queries and
    the failed checks alone. *)
Theorem Fprint_drives_ranges (fuel : nat) (w : W) (s : Printable)
    (p : Positions) (options : list Option) :
  let pr0 := newPrinter w (Positions_End p)
               (mutateSettings options Fprint_settings) in
  let t := trace (Fprint fuel w s p options) in
  (forall rs1 r rs2 pr1,
     Positions_All p = rs1 ++ r :: rs2 ->
     result (fromRanges fuel s rs1 pr0) = Some pr1 ->
     let it := AllInRange s (Start r) (End r) in
     let run := fromIterator fuel it pr1 in
     let l := consumed_pairs (trace run) in
     t = trace (fromRanges fuel s rs1 pr0)
         ++ Queried (Start r) (End r)
            :: trace run
            ++ match result run with
               | Some pr2 => trace (fromRanges fuel s rs2 pr2)
               | None => []
               end /\
     l = yielded it 0 (List.length l) /\
     (pulled (trace run) = seq 0 (List.length l)
      \/ pulled (trace run) = seq 0 (S (List.length l))) /\
     (forall pr2, result run = Some pr2 ->
                  pr2 = feed l pr1 /\
                  (CanConsume pr2 = true -> it (List.length l) = None))) /\
  (forall r, result (Fprint fuel w s p options) = Some r ->
             r = outcome (Finish (feed (consumed_pairs t) pr0))) /\
  forallb consumed_while_can t = true /\
  rechecked t = true /\
  forallb (fun e => negb (is_input e)) (after_stop t) = true /\
  (exists k, queries t = firstn k (Positions_All p)) /\
  (forall r, result (Fprint fuel w s p options) = Some r ->
             queries t = Positions_All p) /\
  (existsb is_stop t = true ->
   queries t = Positions_All p /\
   exists r, result (Fprint fuel w s p options) = Some r) /\
  (CanConsume pr0 = false -> t = idle_log (Positions_All p)).
Proof.
  cbv zeta. rewrite Fprint_log, Fprint_result.
  set (pr0 := newPrinter w (Positions_End p)
                (mutateSettings options Fprint_settings)).
  split; [|split; [|split; [|split; [|split; [|split; [|split; [|split]]]]]]].
  - intros rs1 r rs2 pr1 Hp H1. rewrite Hp. split.
    + now apply fromRanges_split.
    + apply fromIterator_fed.
  - intros r H.
    destruct (result (fromRanges fuel s (Positions_All p) pr0)) as [pr'|] eqn:E;
      [|discriminate].
    cbn in H. injection H as <-. now rewrite <- (fromRanges_fed _ _ _ _ _ E).
  - apply fromRanges_consumed.
  - apply fromRanges_rechecked.
  - apply fromRanges_after_stop.
  - apply fromRanges_queries_prefix.
  - intros r H.
    destruct (result (fromRanges fuel s (Positions_All p) pr0)) as [pr'|] eqn:E;
      [|discriminate].
    now apply fromRanges_queries with (pr' := pr').
  - intros H. destruct (fromRanges_stop_returns _ _ _ _ H) as (Hq & pr' & Hr & _).
    split; [exact Hq|]. rewrite Hr. cbn. eauto.
  - intros H. now rewrite (fromRanges_stopped _ _ _ _ H).
Qed.

End RangesDriven.

(** C3 as stated fails: the first write of [Fprint] fails, [CanConsume()]
    returns false after the first pair of the first range, and the second
    range is queried all the same. *)
Lemma Fprint_queries_after_stop :
  trace (Fprint (ops := layout_printer decimal_margin) 5 full_writer
           (Printable_of_list sqrt2_digits) two_ranges [])
  = [Queried 0 5; Checked true; Pulled 0; Consumed true 0 1; Checked false;
     Queried 7 12; Checked false]
  /\ ~ stops_querying
         (trace (Fprint (ops := layout_printer decimal_margin) 5 full_writer
                   (Printable_of_list sqrt2_digits) two_ranges [])).
Proof.
  split; [reflexivity|]. unfold stops_querying. vm_compute. discriminate.
Qed.

(** C3 (amended) at two runs.  On the destination with no room the log
    holds a failed check, so every range is queried and [Fprint] returns.
    On a builder the first range, of five digits, is driven to the end of
    its iterator. *)
Lemma Fprint_drives_ranges_witness :
  (queries (trace (Fprint (ops := layout_printer decimal_margin) 5 full_writer
                     (Printable_of_list sqrt2_digits) two_ranges []))
   = Positions_All two_ranges /\
   exists r,
     result (Fprint (ops := layout_printer decimal_margin) 5 full_writer
               (Printable_of_list sqrt2_digits) two_ranges []) = Some r) /\
  AllInRange (Printable_of_list sqrt2_digits) 0 5
    (List.length
       (consumed_pairs
          (trace (fromIterator (ops := layout_printer decimal_margin) 12
                    (AllInRange (Printable_of_list sqrt2_digits) 0 5)
                    (newPrinter (PrinterOps := layout_printer decimal_margin)
                       zero_Builder (Positions_End two_ranges)
                       (mutateSettings [] Fprint_settings))))))
  = None.
Proof.
  split.
  - destruct (Fprint_drives_ranges (ops := layout_printer decimal_margin) 5
                full_writer (Printable_of_list sqrt2_digits) two_ranges [])
      as (_ & _ & _ & _ & _ & _ & _ & H & _).
    apply H. vm_compute. reflexivity.
  - destruct (Fprint_drives_ranges (ops := layout_printer decimal_margin) 12
                zero_Builder (Printable_of_list sqrt2_digits) two_ranges [])
      as (H & _).
    destruct (H [] {| Start := 0; End := 5 |} [ {| Start := 7; End := 12 |} ]
                _ eq_refl eq_refl) as (_ & _ & _ & Hf).
    eapply Hf; vm_compute; reflexivity.
Defined.
